(** * Witness calculator of circom (c/calcwit.cpp)

    A shallow embedding of [Circom_CalcWit], the run-time engine that the
    code generated by the circom compiler drives to compute a witness, and
    the properties of its symbol lookup, signal store, trigger counters and
    barrier.

    Layout: the data model, the symbol lookup, the calculator operations in
    a state-and-error monad, the interpreter of generated component code,
    the step machines of the two waiting loops, the vocabulary of the
    statements and example circuits; then the scenarios of the
    specification, the lemmas and the theorems. *)

From stdpp Require Import base list.
From Stdlib Require Import ZArith Lia.

(** ** Data model *)

(** [mpz_t] values are unbounded integers. *)
Definition BigInt := Z.

(** [mpz_init_set_ui(x, v)]: initialise [x] with the value [v]. *)
Definition mpz_init_set_ui (v : Z) : BigInt := v.

(** [mpz_init2(x, n)]: initialise [x] with space for [n] bits and the value
    0.  The capacity is an allocation hint; it has no effect on the value. *)
Definition mpz_init2 (n : Z) : BigInt := 0%Z.

(** The arrays an index can fall out of. *)
Inductive array_id :=
| A_components | A_hashTable | A_entries
| A_signalValues | A_signalAssigned | A_inputSignalsToTrigger.

Inductive error :=
| HashNotFound (key : Z)        (* runtime_error("hash not found: " + hex) *)
| InvalidType                   (* runtime_error("invalid type") *)
| SignalAssignedTwice (sIdx : nat)   (* sanity build, assert(false) *)
| NotAssignedSignal (sIdx : nat)     (* sanity build, assert(false) *)
| ConstraintDoesntMatch              (* sanity build, assert(false) *)
| OutOfBounds (a : array_id) (i : nat). (* access outside an array *)

Inductive result (A : Type) :=
| Ok (a : A)
| Err (e : error).
Arguments Ok {A} a.
Arguments Err {A} e.

(** One slot of a component's open-addressed table: a 64-bit name hash and
    the position of its record in [entries]; [hash = 0] marks a free slot. *)
Record Circom_HashEntry := { hash : Z; pos : nat }.

Inductive entry_type := _typeSignal | _typeComponent.

Definition entry_type_eqb (a b : entry_type) : bool :=
  match a, b with
  | _typeSignal, _typeSignal | _typeComponent, _typeComponent => true
  | _, _ => false
  end.

Definition Circom_Sizes := list Z.

Record Circom_ComponentEntry :=
  { type : entry_type; offset : Z; sizes : Circom_Sizes }.

(** *** Generated code

    A component function receives the calculator and its own index and
    talks to the calculator through its public operations only.  It is a
    tree of such calls, each continued with the value the call returns. *)
Inductive Call :=
| CGetSubComponentOffset (cIdx : nat) (key : Z)
| CGetSubComponentSizes (cIdx : nat) (key : Z)
| CGetSignalOffset (cIdx : nat) (key : Z)
| CGetSignalSizes (cIdx : nat) (key : Z)
| CGetSignal (currentComponentIdx cIdx sIdx : nat)
| CSetSignal (currentComponentIdx cIdx sIdx : nat) (value : BigInt)
| CCheckConstraint (currentComponentIdx : nat) (value1 value2 : BigInt)
| CFinished (cIdx : nat)
| CTriggerComponent (newCIdx : nat)
| CReset
| CJoin.

Inductive Value :=
| VUnit
| VInt (z : Z)
| VSizes (s : Circom_Sizes).

Inductive Prog :=
| Return
| Do (c : Call) (k : Value -> Prog).

Record Circom_Component :=
  { hashTable : list Circom_HashEntry;
    entries : list Circom_ComponentEntry;
    fn : Prog;
    inputSignals : nat;
    newThread : bool }.

Record Circom_Circuit :=
  { NSignals : nat;
    NComponents : nat;
    components : list Circom_Component;
    mapIsInput : list Z }.

(** Modelled from the spec: the macro [BITMAP_ISSET] is declared in a header
    that is not part of the sources; the spec describes [mapIsInput] as a
    bitmap with one bit per signal.  The words are 32 bits wide. *)
Definition BITMAP_ISSET (m : list Z) (b : nat) : bool :=
  Z.testbit (nth (b / 32) m 0%Z) (Z.of_nat (b mod 32)).

(** ** Symbol lookup *)

(** The probe loop, the same in the four accessors:
    [for (hIdx = hash & 0xFF; hash != hashTable[hIdx].hash; hIdx++)
       if (!hashTable[hIdx].hash) throw "hash not found"].
    [n] bounds the number of iterations; a table of [n] slots is left after
    at most [n] of them. *)
Fixpoint probe (n : nat) (tbl : list Circom_HashEntry) (hIdx : nat) (key : Z)
  : result nat :=
  match tbl !! hIdx with
  | None => Err (OutOfBounds A_hashTable hIdx)
  | Some e =>
      if (key =? hash e)%Z then Ok hIdx
      else if (hash e =? 0)%Z then Err (HashNotFound key)
      else match n with
           | O => Err (OutOfBounds A_hashTable (S hIdx))
           | S n' => probe n' tbl (S hIdx) key
           end
  end.

Definition probe_start (key : Z) : nat := Z.to_nat (Z.land key 255).

Definition result_bind {A B} (r : result A) (f : A -> result B) : result B :=
  match r with
  | Ok a => f a
  | Err e => Err e
  end.

Notation "'let?' x ':=' r 'in' k" := (result_bind r (fun x => k))
  (at level 10, x name, r at level 100, k at level 200).

(** Array reads of the circuit description. *)
Definition at_index {A} (a : array_id) (l : list A) (i : nat) : result A :=
  match l !! i with
  | Some x => Ok x
  | None => Err (OutOfBounds a i)
  end.

Definition getSubComponentOffset (circuit : Circom_Circuit) (cIdx : nat)
    (key : Z) : result Z :=
  let? comp := at_index A_components (components circuit) cIdx in
  let? hIdx := probe (length (hashTable comp)) (hashTable comp)
                 (probe_start key) key in
  let? slot := at_index A_hashTable (hashTable comp) hIdx in
  let entryPos := pos slot in
  let? ent := at_index A_entries (entries comp) entryPos in
  if negb (entry_type_eqb (type ent) _typeComponent) then Err InvalidType
  else Ok (offset ent).

Definition getSubComponentSizes (circuit : Circom_Circuit) (cIdx : nat)
    (key : Z) : result Circom_Sizes :=
  let? comp := at_index A_components (components circuit) cIdx in
  let? hIdx := probe (length (hashTable comp)) (hashTable comp)
                 (probe_start key) key in
  let? slot := at_index A_hashTable (hashTable comp) hIdx in
  let entryPos := pos slot in
  let? ent := at_index A_entries (entries comp) entryPos in
  if negb (entry_type_eqb (type ent) _typeComponent) then Err InvalidType
  else Ok (sizes ent).

Definition getSignalOffset (circuit : Circom_Circuit) (cIdx : nat)
    (key : Z) : result Z :=
  let? comp := at_index A_components (components circuit) cIdx in
  let? hIdx := probe (length (hashTable comp)) (hashTable comp)
                 (probe_start key) key in
  let? slot := at_index A_hashTable (hashTable comp) hIdx in
  let entryPos := pos slot in
  let? ent := at_index A_entries (entries comp) entryPos in
  if negb (entry_type_eqb (type ent) _typeSignal) then Err InvalidType
  else Ok (offset ent).

Definition getSignalSizes (circuit : Circom_Circuit) (cIdx : nat)
    (key : Z) : result Circom_Sizes :=
  let? comp := at_index A_components (components circuit) cIdx in
  let? hIdx := probe (length (hashTable comp)) (hashTable comp)
                 (probe_start key) key in
  let? slot := at_index A_hashTable (hashTable comp) hIdx in
  let entryPos := pos slot in
  let? ent := at_index A_entries (entries comp) entryPos in
  if negb (entry_type_eqb (type ent) _typeSignal) then Err InvalidType
  else Ok (sizes ent).

(** ** Calculator state *)

(** Who wrote a trigger counter. *)
Inductive cause :=
| ByReset
| BySetSignal (sIdx : nat)
| ByFinished.

(** One write to [inputSignalsToTrigger[cIdx]]. *)
Record PendingWrite :=
  { pw_cause : cause; pw_cIdx : nat; pw_old : Z; pw_new : Z }.

(** The mutable members of [Circom_CalcWit].  [signalAssigned] exists in
    sanity builds only.  Two more fields describe the run and are not data
    of the program: [threads] lists the components whose function was
    started on a detached thread, in the order of their start; [journal]
    lists the writes to the trigger counters, in the order they happened. *)
Record State :=
  { signalValues : list BigInt;
    signalAssigned : list bool;
    inputSignalsToTrigger : list Z;
    threads : list nat;
    journal : list PendingWrite }.

(** How a call ends: with a value, with an exception or a failed assertion,
    waiting on a condition variable that nobody signals, or cut short by the
    bound on the length of the run. *)
Inductive outcome (A : Type) :=
| Ret (a : A)
| Throw (e : error)
| Blocked
| OutOfFuel.
Arguments Ret {A} a.
Arguments Throw {A} e.
Arguments Blocked {A}.
Arguments OutOfFuel {A}.

(** State and error monad; the state reached when a call stops early is
    kept. *)
Definition M (A : Type) : Type := State -> outcome A * State.

Definition ret {A} (a : A) : M A := fun st => (Ret a, st).
Definition throw {A} (e : error) : M A := fun st => (Throw e, st).
Definition block {A} : M A := fun st => (Blocked, st).
Definition out_of_fuel {A} : M A := fun st => (OutOfFuel, st).

Definition bind {A B} (m : M A) (f : A -> M B) : M B :=
  fun st =>
    match m st with
    | (Ret a, st') => f a st'
    | (Throw e, st') => (Throw e, st')
    | (Blocked, st') => (Blocked, st')
    | (OutOfFuel, st') => (OutOfFuel, st')
    end.

Declare Scope calc_scope.
Delimit Scope calc_scope with calc.
Notation "'let*' x ':=' m 'in' k" := (bind m (fun x => k))
  (at level 10, x name, m at level 100, k at level 200) : calc_scope.
Notation "m ;; k" := (bind m (fun _ => k))
  (at level 100, k at level 200, right associativity) : calc_scope.
Open Scope calc_scope.

Definition of_result {A} (r : result A) : M A :=
  match r with
  | Ok a => ret a
  | Err e => throw e
  end.

(** Array accesses; an index outside the array stops the call. *)
Definition read_signalValue (i : nat) : M BigInt :=
  fun st => match signalValues st !! i with
            | Some v => (Ret v, st)
            | None => (Throw (OutOfBounds A_signalValues i), st)
            end.

Definition write_signalValue (i : nat) (v : BigInt) : M unit :=
  fun st => match signalValues st !! i with
            | Some _ =>
                (Ret tt,
                 {| signalValues := <[i:=v]> (signalValues st);
                    signalAssigned := signalAssigned st;
                    inputSignalsToTrigger := inputSignalsToTrigger st;
                    threads := threads st;
                    journal := journal st |})
            | None => (Throw (OutOfBounds A_signalValues i), st)
            end.

Definition read_signalAssigned (i : nat) : M bool :=
  fun st => match signalAssigned st !! i with
            | Some b => (Ret b, st)
            | None => (Throw (OutOfBounds A_signalAssigned i), st)
            end.

Definition write_signalAssigned (i : nat) (b : bool) : M unit :=
  fun st => match signalAssigned st !! i with
            | Some _ =>
                (Ret tt,
                 {| signalValues := signalValues st;
                    signalAssigned := <[i:=b]> (signalAssigned st);
                    inputSignalsToTrigger := inputSignalsToTrigger st;
                    threads := threads st;
                    journal := journal st |})
            | None => (Throw (OutOfBounds A_signalAssigned i), st)
            end.

Definition read_inputSignalsToTrigger (i : nat) : M Z :=
  fun st => match inputSignalsToTrigger st !! i with
            | Some p => (Ret p, st)
            | None => (Throw (OutOfBounds A_inputSignalsToTrigger i), st)
            end.

Definition write_inputSignalsToTrigger (who : cause) (i : nat) (p : Z)
  : M unit :=
  fun st => match inputSignalsToTrigger st !! i with
            | Some old =>
                (Ret tt,
                 {| signalValues := signalValues st;
                    signalAssigned := signalAssigned st;
                    inputSignalsToTrigger := <[i:=p]> (inputSignalsToTrigger st);
                    threads := threads st;
                    journal := journal st ++
                      [{| pw_cause := who; pw_cIdx := i;
                          pw_old := old; pw_new := p |}] |})
            | None => (Throw (OutOfBounds A_inputSignalsToTrigger i), st)
            end.

(** [std::thread t(fn, this, cIdx); t.detach()]. *)
Definition spawn (cIdx : nat) : M unit :=
  fun st =>
    (Ret tt,
     {| signalValues := signalValues st;
        signalAssigned := signalAssigned st;
        inputSignalsToTrigger := inputSignalsToTrigger st;
        threads := threads st ++ [cIdx];
        journal := journal st |}).

(** [for (int i = lo; i < lo + count; i++) body(i)]. *)
Fixpoint for_range (lo count : nat) (body : nat -> M unit) : M unit :=
  match count with
  | O => ret tt
  | S n => body lo ;; for_range (S lo) n body
  end.

(** ** Calculator operations *)

Section Operations.

(** The circuit the calculator was built around, the build configuration
    ([SANITY_CHECK] defined or not) and the way a component function runs
    when it is called on the current thread. *)
Variable circuit : Circom_Circuit.
Variable SANITY_CHECK : bool.
Variable call : Prog -> M unit.

Definition read_component (cIdx : nat) : M Circom_Component :=
  match components circuit !! cIdx with
  | Some comp => ret comp
  | None => throw (OutOfBounds A_components cIdx)
  end.

Definition triggerComponent (newCIdx : nat) : M unit :=
  let* comp := read_component newCIdx in
  if newThread comp then spawn newCIdx else call (fn comp).

Definition reset : M unit :=
  (if SANITY_CHECK
   then for_range 1 (NComponents circuit - 1)
          (fun i => write_signalAssigned i false)
   else ret tt) ;;
  for_range 0 (NComponents circuit)
    (fun i =>
       let* comp := read_component i in
       write_inputSignalsToTrigger ByReset i (Z.of_nat (inputSignals comp)) ;;
       let* p := read_inputSignalsToTrigger i in
       if (p =? 0)%Z then triggerComponent i else ret tt).

Definition getSignal (currentComponentIdx cIdx sIdx : nat) : M BigInt :=
  let* comp := read_component cIdx in
  (if newThread comp && negb (currentComponentIdx =? cIdx)%nat
   then let* p := read_inputSignalsToTrigger cIdx in
        if (p =? -1)%Z then ret tt else block
   else ret tt) ;;
  (if SANITY_CHECK
   then let* a := read_signalAssigned sIdx in
        if a then ret tt else throw (NotAssignedSignal sIdx)
   else ret tt) ;;
  read_signalValue sIdx.

Definition finished (cIdx : nat) : M unit :=
  write_inputSignalsToTrigger ByFinished cIdx (-1)%Z.

Definition setSignal (currentComponentIdx cIdx sIdx : nat) (value : BigInt)
  : M unit :=
  (if SANITY_CHECK
   then let* a := read_signalAssigned sIdx in
        if a then throw (SignalAssignedTwice sIdx)
        else write_signalAssigned sIdx true
   else ret tt) ;;
  write_signalValue sIdx value ;;
  if BITMAP_ISSET (mapIsInput circuit) sIdx then
    let* p := read_inputSignalsToTrigger cIdx in
    if (p >? 0)%Z then
      write_inputSignalsToTrigger (BySetSignal sIdx) cIdx (p - 1)%Z ;;
      let* p' := read_inputSignalsToTrigger cIdx in
      if (p' =? 0)%Z then triggerComponent cIdx else ret tt
    else ret tt
  else ret tt.

Definition checkConstraint (currentComponentIdx : nat)
    (value1 value2 : BigInt) : M unit :=
  if SANITY_CHECK
  then if (value1 =? value2)%Z then ret tt else throw ConstraintDoesntMatch
  else ret tt.

(** In one thread of control, waiting for a counter that is not [-1]
    never ends. *)
Definition join : M unit :=
  for_range 0 (NComponents circuit)
    (fun i =>
       let* p := read_inputSignalsToTrigger i in
       if (p =? -1)%Z then ret tt else block).

Definition perform (c : Call) : M Value :=
  match c with
  | CGetSubComponentOffset cIdx key =>
      let* z := of_result (getSubComponentOffset circuit cIdx key) in ret (VInt z)
  | CGetSubComponentSizes cIdx key =>
      let* s := of_result (getSubComponentSizes circuit cIdx key) in ret (VSizes s)
  | CGetSignalOffset cIdx key =>
      let* z := of_result (getSignalOffset circuit cIdx key) in ret (VInt z)
  | CGetSignalSizes cIdx key =>
      let* s := of_result (getSignalSizes circuit cIdx key) in ret (VSizes s)
  | CGetSignal cur cIdx sIdx =>
      let* v := getSignal cur cIdx sIdx in ret (VInt v)
  | CSetSignal cur cIdx sIdx value =>
      setSignal cur cIdx sIdx value ;; ret VUnit
  | CCheckConstraint cur value1 value2 =>
      checkConstraint cur value1 value2 ;; ret VUnit
  | CFinished cIdx => finished cIdx ;; ret VUnit
  | CTriggerComponent newCIdx => triggerComponent newCIdx ;; ret VUnit
  | CReset => reset ;; ret VUnit
  | CJoin => join ;; ret VUnit
  end.

End Operations.

(** Running generated code: every call is performed by the calculator, and
    a component function called on the current thread runs the same way.
    [fuel] bounds the depth of the run. *)
Fixpoint exec (circuit : Circom_Circuit) (SANITY_CHECK : bool) (fuel : nat)
    (p : Prog) : M unit :=
  match fuel with
  | O => out_of_fuel
  | S fuel' =>
      match p with
      | Return => ret tt
      | Do c k =>
          let* v := perform circuit SANITY_CHECK (exec circuit SANITY_CHECK fuel') c in
          exec circuit SANITY_CHECK fuel' (k v)
      end
  end.

(** *** Construction *)

(** The content of freshly allocated arrays is indeterminate. *)
Record Uninit :=
  { u_values : nat -> BigInt;
    u_assigned : nat -> bool;
    u_counters : nat -> Z }.

Definition allocated (circuit : Circom_Circuit) (SANITY_CHECK : bool)
    (u : Uninit) : State :=
  {| signalValues := map (u_values u) (seq 0 (NSignals circuit));
     signalAssigned :=
       if SANITY_CHECK then map (u_assigned u) (seq 0 (NSignals circuit))
       else [];
     inputSignalsToTrigger := map (u_counters u) (seq 0 (NComponents circuit));
     threads := [];
     journal := [] |}.

(** The constructor up to its call of [reset]. *)
Definition init_signals (circuit : Circom_Circuit) (SANITY_CHECK : bool)
  : M unit :=
  (if SANITY_CHECK then write_signalAssigned 0 true else ret tt) ;;
  write_signalValue 0 (mpz_init_set_ui 1) ;;
  for_range 1 (NSignals circuit - 1)
    (fun i => write_signalValue i (mpz_init2 256)).

Definition Circom_CalcWit (circuit : Circom_Circuit) (SANITY_CHECK : bool)
    (fuel : nat) (u : Uninit) : outcome unit * State :=
  (init_signals circuit SANITY_CHECK ;;
   reset circuit SANITY_CHECK (exec circuit SANITY_CHECK fuel))
    (allocated circuit SANITY_CHECK u).

(** ** The two waiting loops, step by step

    [getSignal] and [join] wait under a mutex of the bank until a component
    has finished.  What other threads do in the meantime decides when they
    return, so here they run one step at a time on memory that the other
    threads change between the steps. *)

(** The calculator and the bank of [NMUTEXES] mutexes, each free or held
    by a thread. *)
Record Shared :=
  { calc : State;
    mutexes : list (option nat) }.

Section Waiting.

Variable circuit : Circom_Circuit.
Variable SANITY_CHECK : bool.
(** Modelled from the spec: the size of the bank is a macro of a header
    that is not part of the sources ("small fixed, e.g. 64"). *)
Variable NMUTEXES : nat.
(** The thread that runs the operation. *)
Variable me : nat.

(** [mutexes[slot].lock()]: possible when the mutex is free. *)
Definition acquire (slot : nat) (sh : Shared) : option Shared :=
  match mutexes sh !! slot with
  | Some None =>
      Some {| calc := calc sh; mutexes := <[slot:=Some me]> (mutexes sh) |}
  | _ => None
  end.

(** [mutexes[slot].unlock()]. *)
Definition release (slot : nat) (sh : Shared) : Shared :=
  {| calc := calc sh; mutexes := <[slot:=None]> (mutexes sh) |}.

Definition holds (slot : nat) (sh : Shared) : Prop :=
  mutexes sh !! slot = Some (Some me).

(** Control points of [getSignal]. *)
Inductive gs_pc :=
| GS_entry                (* the test of newThread and of the indices *)
| GS_lock                 (* unique_lock lk(mutexes[cIdx % NMUTEXES]) *)
| GS_test                 (* while (inputSignalsToTrigger[cIdx] != -1) *)
| GS_wait                 (* cvs[cIdx % NMUTEXES].wait(lk), lock released *)
| GS_unlock               (* lk.unlock() *)
| GS_sanity               (* the check of signalAssigned[sIdx] *)
| GS_copy                 (* mpz_set(value, signalValues[sIdx]) *)
| GS_return (v : BigInt)
| GS_fail (e : error).

(** One step of [getSignal(currentComponentIdx, cIdx, sIdx, value)];
    [None] when the thread cannot move: it has returned, or the mutex it
    needs is held.  A waiting thread may wake up at any time (wake-ups
    can be spurious) and then needs the mutex back. *)
Definition gs_step (currentComponentIdx cIdx sIdx : nat)
    (pc : gs_pc) (sh : Shared) : option (gs_pc * Shared) :=
  let slot := (cIdx mod NMUTEXES)%nat in
  match pc with
  | GS_entry =>
      match components circuit !! cIdx with
      | None => Some (GS_fail (OutOfBounds A_components cIdx), sh)
      | Some comp =>
          if newThread comp && negb (currentComponentIdx =? cIdx)%nat
          then Some (GS_lock, sh) else Some (GS_sanity, sh)
      end
  | GS_lock =>
      match acquire slot sh with
      | Some sh' => Some (GS_test, sh')
      | None => None
      end
  | GS_test =>
      match inputSignalsToTrigger (calc sh) !! cIdx with
      | None => Some (GS_fail (OutOfBounds A_inputSignalsToTrigger cIdx), sh)
      | Some p =>
          if (p =? -1)%Z then Some (GS_unlock, sh)
          else Some (GS_wait, release slot sh)
      end
  | GS_wait =>
      match acquire slot sh with
      | Some sh' => Some (GS_test, sh')
      | None => None
      end
  | GS_unlock => Some (GS_sanity, release slot sh)
  | GS_sanity =>
      if SANITY_CHECK then
        match signalAssigned (calc sh) !! sIdx with
        | None => Some (GS_fail (OutOfBounds A_signalAssigned sIdx), sh)
        | Some false => Some (GS_fail (NotAssignedSignal sIdx), sh)
        | Some true => Some (GS_copy, sh)
        end
      else Some (GS_copy, sh)
  | GS_copy =>
      match signalValues (calc sh) !! sIdx with
      | None => Some (GS_fail (OutOfBounds A_signalValues sIdx), sh)
      | Some v => Some (GS_return v, sh)
      end
  | GS_return _ | GS_fail _ => None
  end.

(** Control points of [join]; [i] is the loop variable. *)
Inductive join_pc :=
| J_loop (i : nat)        (* i < circuit->NComponents *)
| J_lock (i : nat)        (* unique_lock lk(mutexes[i % NMUTEXES]) *)
| J_test (i : nat)        (* while (inputSignalsToTrigger[i] != -1) *)
| J_wait (i : nat)        (* cvs[i % NMUTEXES].wait(lk), lock released *)
| J_unlock (i : nat)      (* lk.unlock(), then i++ *)
| J_return
| J_fail (e : error).

Definition join_step (pc : join_pc) (sh : Shared)
  : option (join_pc * Shared) :=
  match pc with
  | J_loop i =>
      if (i <? NComponents circuit)%nat then Some (J_lock i, sh)
      else Some (J_return, sh)
  | J_lock i =>
      match acquire (i mod NMUTEXES)%nat sh with
      | Some sh' => Some (J_test i, sh')
      | None => None
      end
  | J_test i =>
      match inputSignalsToTrigger (calc sh) !! i with
      | None => Some (J_fail (OutOfBounds A_inputSignalsToTrigger i), sh)
      | Some p =>
          if (p =? -1)%Z then Some (J_unlock i, sh)
          else Some (J_wait i, release (i mod NMUTEXES)%nat sh)
      end
  | J_wait i =>
      match acquire (i mod NMUTEXES)%nat sh with
      | Some sh' => Some (J_test i, sh')
      | None => None
      end
  | J_unlock i => Some (J_loop (S i), release (i mod NMUTEXES)%nat sh)
  | J_return | J_fail _ => None
  end.

(** What the other threads may do between two steps of this one:
    anything, except lock or unlock a mutex in this thread's name. *)
Definition others (sh sh' : Shared) : Prop :=
  forall slot, holds slot sh <-> holds slot sh'.

(** Histories, latest configuration first: the thread's own steps
    interleaved with the steps of the others. *)
Inductive history {PC : Type} (step : PC -> Shared -> option (PC * Shared))
    (init : PC) : list (PC * Shared) -> Prop :=
| history_start sh : history step init [(init, sh)]
| history_own pc sh pc' sh' h :
    history step init ((pc, sh) :: h) ->
    step pc sh = Some (pc', sh') ->
    history step init ((pc', sh') :: (pc, sh) :: h)
| history_others pc sh sh' h :
    history step init ((pc, sh) :: h) ->
    others sh sh' ->
    history step init ((pc, sh') :: (pc, sh) :: h).

(** [getSignal] is past its waiting loop: the most recent test of the
    loop found the counter at [-1], under the mutex of the slot. *)
Definition gs_past_wait (pc : gs_pc) : bool :=
  match pc with
  | GS_unlock | GS_sanity | GS_copy | GS_return _ | GS_fail _ => true
  | _ => false
  end.

Definition gs_waited (cIdx : nat) (h : list (gs_pc * Shared)) : Prop :=
  exists later shT earlier,
    h = later ++ (GS_test, shT) :: earlier /\
    inputSignalsToTrigger (calc shT) !! cIdx = Some (-1)%Z /\
    holds (cIdx mod NMUTEXES)%nat shT /\
    Forall (fun cfg => gs_past_wait (fst cfg) = true) later.

(** [getSignal] never came near the mutex. *)
Definition gs_in_wait (pc : gs_pc) : bool :=
  match pc with
  | GS_lock | GS_test | GS_wait | GS_unlock => true
  | _ => false
  end.

Definition gs_never_waited (h : list (gs_pc * Shared)) : Prop :=
  Forall (fun cfg => gs_in_wait (fst cfg) = false) h.

(** [join] has seen components [0 .. n-1] finished, one after the
    other. *)
Fixpoint join_seen (n : nat) (h : list (join_pc * Shared)) : Prop :=
  match n with
  | O => True
  | S n' =>
      exists later shT earlier,
        h = later ++ (J_test n', shT) :: earlier /\
        inputSignalsToTrigger (calc shT) !! n' = Some (-1)%Z /\
        holds (n' mod NMUTEXES)%nat shT /\
        join_seen n' earlier
  end.

(** No step of the history takes a finished component back. *)
Fixpoint finished_stays {PC : Type} (h : list (PC * Shared)) : Prop :=
  match h with
  | cfg' :: ((cfg :: _) as h') =>
      (forall c, inputSignalsToTrigger (calc (snd cfg)) !! c = Some (-1)%Z ->
                 inputSignalsToTrigger (calc (snd cfg')) !! c = Some (-1)%Z)
      /\ finished_stays h'
  | _ => True
  end.

(** [getSignal] takes the mutex and waits when the producing component
    runs on a thread of its own and is not the caller. *)
Definition gs_must_wait (currentComponentIdx cIdx : nat) : bool :=
  match components circuit !! cIdx with
  | Some comp => newThread comp && negb (currentComponentIdx =? cIdx)%nat
  | None => false
  end.

Definition gs_phase (currentComponentIdx cIdx : nat)
    (h : list (gs_pc * Shared)) : Prop :=
  if gs_must_wait currentComponentIdx cIdx
  then gs_waited cIdx h else gs_never_waited h.

(** What the history of [getSignal] looks like, by control point. *)
Definition gs_inv (currentComponentIdx cIdx sIdx : nat)
    (pc : gs_pc) (sh : Shared) (h : list (gs_pc * Shared)) : Prop :=
  match pc with
  | GS_entry => Forall (fun cfg => fst cfg = GS_entry) h
  | GS_lock | GS_wait => gs_must_wait currentComponentIdx cIdx = true
  | GS_test =>
      gs_must_wait currentComponentIdx cIdx = true /\
      holds (cIdx mod NMUTEXES)%nat sh
  | GS_unlock | GS_sanity | GS_copy =>
      gs_phase currentComponentIdx cIdx ((pc, sh) :: h)
  | GS_return v =>
      exists later shC earlier,
        h = later ++ (GS_copy, shC) :: earlier /\
        signalValues (calc shC) !! sIdx = Some v /\
        Forall (fun cfg => fst cfg = GS_return v) later /\
        gs_phase currentComponentIdx cIdx ((GS_copy, shC) :: earlier)
  | GS_fail _ => True
  end.

(** The components below [n] have finished. *)
Definition all_finished (n : nat) (sh : Shared) : Prop :=
  forall c, (c < n)%nat ->
            inputSignalsToTrigger (calc sh) !! c = Some (-1)%Z.

(** What the history of [join] looks like, by control point. *)
Definition join_inv (pc : join_pc) (sh : Shared)
    (h : list (join_pc * Shared)) : Prop :=
  match pc with
  | J_loop i =>
      (i <= NComponents circuit)%nat /\ join_seen i ((pc, sh) :: h) /\
      (finished_stays ((pc, sh) :: h) -> all_finished i sh)
  | J_lock i | J_wait i =>
      (i < NComponents circuit)%nat /\ join_seen i ((pc, sh) :: h) /\
      (finished_stays ((pc, sh) :: h) -> all_finished i sh)
  | J_test i =>
      (i < NComponents circuit)%nat /\ join_seen i ((pc, sh) :: h) /\
      holds (i mod NMUTEXES)%nat sh /\
      (finished_stays ((pc, sh) :: h) -> all_finished i sh)
  | J_unlock i =>
      (i < NComponents circuit)%nat /\ join_seen (S i) ((pc, sh) :: h) /\
      (finished_stays ((pc, sh) :: h) -> all_finished (S i) sh)
  | J_return =>
      join_seen (NComponents circuit) h /\
      (finished_stays ((pc, sh) :: h) ->
       all_finished (NComponents circuit) sh)
  | J_fail _ => True
  end.

End Waiting.

(** ** Vocabulary of the statements *)

(** The probe for [key] stops at slot [j] of [tbl]: [j] is the first index
    from [key & 0xFF] on whose slot holds [key] or is free, and every slot
    before it is there, taken and holds another hash. *)
Definition probe_stops_at (tbl : list Circom_HashEntry) (key : Z) (j : nat)
    (slot : Circom_HashEntry) : Prop :=
  (probe_start key <= j)%nat /\
  tbl !! j = Some slot /\
  (hash slot = key \/ hash slot = 0%Z) /\
  forall i, (probe_start key <= i < j)%nat ->
            exists s, tbl !! i = Some s /\ hash s <> key /\ hash s <> 0%Z.

(** Some slot at or after the start of the probe ends it. *)
Definition probe_can_stop (tbl : list Circom_HashEntry) (key : Z) : Prop :=
  exists j slot, (probe_start key <= j)%nat /\ tbl !! j = Some slot /\
                 (hash slot = key \/ hash slot = 0%Z).

(** What an accessor that expects type [ty] and selects field [f] answers
    for the record [ent]. *)
Definition answer {A} (ty : entry_type) (f : Circom_ComponentEntry -> A)
    (ent : Circom_ComponentEntry) : result A :=
  if entry_type_eqb (type ent) ty then Ok (f ent) else Err InvalidType.

(** Every call that the generated code [p] can make satisfies [good]. *)
Fixpoint AllCalls (good : Call -> Prop) (p : Prog) : Prop :=
  match p with
  | Return => True
  | Do c k => good c /\ forall v, AllCalls good (k v)
  end.

(** The call is not a [setSignal] on signal [s]. *)
Definition spares (s : nat) (c : Call) : Prop :=
  match c with
  | CSetSignal _ _ sIdx _ => sIdx <> s
  | _ => True
  end.

(** Any call will do. *)
Definition any_call (c : Call) : Prop := True.

(** A calculator operation keeps [Inv], also when it stops early. *)
Definition preserves (Inv : State -> Prop) {A} (m : M A) : Prop :=
  forall st, Inv st -> Inv (snd (m st)).

(** A session: programs run one after the other on the calculator, each
    with its own bound, whatever way each of them ends. *)
Fixpoint session (circuit : Circom_Circuit) (SANITY_CHECK : bool)
    (progs : list (nat * Prog)) (st : State) : State :=
  match progs with
  | [] => st
  | (fuel, p) :: rest =>
      session circuit SANITY_CHECK rest
        (snd (exec circuit SANITY_CHECK fuel p st))
  end.

(** The writes a counter may see: [reset] stores the component's number of
    inputs, [setSignal] on an input signal takes one off a positive counter,
    [finished] stores [-1]. *)
Definition legit (circuit : Circom_Circuit) (w : PendingWrite) : Prop :=
  match pw_cause w with
  | ByReset =>
      exists comp, components circuit !! pw_cIdx w = Some comp /\
                   pw_new w = Z.of_nat (inputSignals comp)
  | BySetSignal sIdx =>
      BITMAP_ISSET (mapIsInput circuit) sIdx = true /\
      (0 < pw_old w)%Z /\ pw_new w = (pw_old w - 1)%Z
  | ByFinished => pw_new w = (-1)%Z
  end.

(** The writes [ws], done in this order, lead from the counters [before]
    to the counters [after], and each write found the value it recorded. *)
Fixpoint replays (ws : list PendingWrite) (before after : list Z) : Prop :=
  match ws with
  | [] => after = before
  | w :: ws' =>
      before !! pw_cIdx w = Some (pw_old w) /\
      replays ws' (<[pw_cIdx w := pw_new w]> before) after
  end.

(** From [st] to [st'] the counters were written by legitimate writes
    only, all of them in the journal. *)
Definition evolves (circuit : Circom_Circuit) (st st' : State) : Prop :=
  exists ws,
    journal st' = journal st ++ ws /\
    Forall (legit circuit) ws /\
    replays ws (inputSignalsToTrigger st) (inputSignalsToTrigger st').

(** Signal [s] holds [x] (nothing, when there is no signal [s]). *)
Definition holds_value (s : nat) (x : option BigInt) (st : State) : Prop :=
  signalValues st !! s = x.

(** The mark of signal [i] is [b] (nothing, when there is no such mark). *)
Definition marked (i : nat) (b : option bool) (st : State) : Prop :=
  signalAssigned st !! i = b.

(** Sanity builds: the reserved signal holds 1 and is marked as assigned. *)
Definition one_guarded (st : State) : Prop :=
  signalValues st !! 0%nat = Some 1%Z /\ signalAssigned st !! 0%nat = Some true.

(** The thread alone: [n] steps, or fewer when it cannot move. *)
Fixpoint steps {PC : Type} (step : PC -> Shared -> option (PC * Shared))
    (n : nat) (cfg : PC * Shared) : PC * Shared :=
  match n with
  | O => cfg
  | S n' =>
      match step (fst cfg) (snd cfg) with
      | Some cfg' => steps step n' cfg'
      | None => cfg
      end
  end.

(** ** Example circuits *)

(** A table of 256 slots without overflow area: slot 0 is free, every other
    slot is taken by the hash [0x1FF]. *)
Definition full_table : list Circom_HashEntry :=
  {| hash := 0; pos := 0 |} :: replicate 255 {| hash := 511; pos := 0 |}.

Definition full_table_circuit : Circom_Circuit :=
  {| NSignals := 2;
     NComponents := 1;
     components :=
       [{| hashTable := full_table;
           entries := [{| type := _typeSignal; offset := 1; sizes := [] |}];
           fn := Return;
           inputSignals := 1;
           newThread := false |}];
     mapIsInput := [2%Z] |}.

(** Scenario S5 of the specification: two names that collide on their low
    byte [0x01], in a table with a free slot on either side. *)
Definition collision_component : Circom_Component :=
  {| hashTable :=
       [{| hash := 0; pos := 0 |}; {| hash := 257; pos := 0 |};
        {| hash := 513; pos := 1 |}; {| hash := 0; pos := 0 |}];
     entries :=
       [{| type := _typeSignal; offset := 1; sizes := [] |};
        {| type := _typeComponent; offset := 1; sizes := [2%Z] |}];
     fn := Do (CFinished 0) (fun _ => Return);
     inputSignals := 1;
     newThread := false |}.

(** Its sub-component has no input and a thread of its own; it produces
    signal 2. *)
Definition producer_component : Circom_Component :=
  {| hashTable := [];
     entries := [];
     fn := Do (CSetSignal 1 1 2 10%Z) (fun _ =>
           Do (CFinished 1) (fun _ => Return));
     inputSignals := 0;
     newThread := true |}.

Definition collision_circuit : Circom_Circuit :=
  {| NSignals := 4;
     NComponents := 2;
     components := [collision_component; producer_component];
     mapIsInput := [2%Z] |}.

(** Scenario S1 of the specification: one component with one input, run
    on the calling thread; it reports that it has finished. *)
Definition identity_circuit : Circom_Circuit :=
  {| NSignals := 2;
     NComponents := 1;
     components :=
       [{| hashTable := [];
           entries := [];
           fn := Do (CFinished 0) (fun _ => Return);
           inputSignals := 1;
           newThread := false |}];
     mapIsInput := [2%Z] |}.

(** Some content for fresh memory. *)
Definition junk : Uninit :=
  {| u_values := fun _ => 7%Z;
     u_assigned := fun _ => true;
     u_counters := fun _ => 3%Z |}.

(** Memory that happens to be zero. *)
Definition zeroed : Uninit :=
  {| u_values := fun _ => 0%Z;
     u_assigned := fun _ => false;
     u_counters := fun _ => 0%Z |}.

Definition int_of (v : Value) : Z :=
  match v with
  | VInt z => z
  | _ => 0%Z
  end.

(** Scenario S2 of the specification: one component adds its two inputs,
    signals 1 and 2, modulo 101 into signal 3. *)
Definition adder_circuit : Circom_Circuit :=
  {| NSignals := 4;
     NComponents := 1;
     components :=
       [{| hashTable := [];
           entries := [];
           fn :=
             Do (CGetSignal 0 0 1) (fun a =>
             Do (CGetSignal 0 0 2) (fun b =>
             Do (CSetSignal 0 0 3 ((int_of a + int_of b) mod 101)%Z) (fun _ =>
             Do (CFinished 0) (fun _ => Return))));
           inputSignals := 2;
           newThread := false |}];
     mapIsInput := [6%Z] |}.

(** The driver of scenario S2: it sets the inputs to 50 and 60. *)
Definition adder_inputs : Prog :=
  Do (CSetSignal 0 0 1 50%Z) (fun _ =>
  Do (CSetSignal 0 0 2 60%Z) (fun _ => Return)).

(** The calculator of scenario S1, built without sanity checks. *)
Definition identity_ready : State :=
  snd (Circom_CalcWit identity_circuit false 5 junk).

(** The calculator of scenario S5 in three moments: built, with the
    producer started on its thread; after the producer has run; after the
    driver has set the input of the main component, which then has run. *)
Definition collision_started : State :=
  snd (Circom_CalcWit collision_circuit false 5 zeroed).

Definition collision_produced : State :=
  snd (exec collision_circuit false 5 (fn producer_component)
         collision_started).

Definition collision_done : State :=
  snd (exec collision_circuit false 5
         (Do (CSetSignal 0 0 1 3%Z) (fun _ => Return)) collision_produced).

(** A bank of two mutexes, all free, or with one held by thread 7. *)
Definition unlocked (st : State) : Shared :=
  {| calc := st; mutexes := [None; None] |}.

Definition locked (slot : nat) (st : State) : Shared :=
  {| calc := st; mutexes := <[slot:=Some 7%nat]> [None; None] |}.

(** Thread 7 reads signal 2 for component 0 while the producer is still
    running: it waits, the producer finishes, it wakes up and returns. *)
Definition reader_history : list (gs_pc * Shared) :=
  [(GS_return 10%Z, unlocked collision_produced);
   (GS_copy, unlocked collision_produced);
   (GS_sanity, unlocked collision_produced);
   (GS_unlock, locked 1 collision_produced);
   (GS_test, locked 1 collision_produced);
   (GS_wait, unlocked collision_produced);
   (GS_wait, unlocked collision_started);
   (GS_test, locked 1 collision_started);
   (GS_lock, unlocked collision_started);
   (GS_entry, unlocked collision_started)].

(** Thread 7 joins while nothing has finished: it waits for component 0,
    the others finish, it wakes up and passes both components. *)
Definition joiner_history : list (join_pc * Shared) :=
  [(J_return, unlocked collision_done);
   (J_loop 2, unlocked collision_done);
   (J_unlock 1, locked 1 collision_done);
   (J_test 1, locked 1 collision_done);
   (J_lock 1, unlocked collision_done);
   (J_loop 1, unlocked collision_done);
   (J_unlock 0, locked 0 collision_done);
   (J_test 0, locked 0 collision_done);
   (J_wait 0, unlocked collision_done);
   (J_wait 0, unlocked collision_started);
   (J_test 0, locked 0 collision_started);
   (J_lock 0, unlocked collision_started);
   (J_loop 0, unlocked collision_started)].

(** ** Vocabulary of the further properties *)

(** What the four accessors share: the record that [key] leads to. *)
Definition found_entry (circuit : Circom_Circuit) (cIdx : nat) (key : Z)
  : result Circom_ComponentEntry :=
  let? comp := at_index A_components (components circuit) cIdx in
  let? hIdx := probe (length (hashTable comp)) (hashTable comp)
                 (probe_start key) key in
  let? slot := at_index A_hashTable (hashTable comp) hIdx in
  at_index A_entries (entries comp) (pos slot).

(** The name [key] of component [cIdx] resolves to the record [ent]: the
    probe stops at a slot that holds [key], and [ent] is the record at the
    position that slot gives. *)
Definition resolves (circuit : Circom_Circuit) (cIdx : nat) (key : Z)
    (ent : Circom_ComponentEntry) : Prop :=
  exists comp j slot,
    components circuit !! cIdx = Some comp /\
    probe_stops_at (hashTable comp) key j slot /\
    hash slot = key /\
    entries comp !! pos slot = Some ent.

(** The error of a failed lookup, if it failed. *)
Definition error_of {A} (r : result A) : option error :=
  match r with
  | Ok _ => None
  | Err e => Some e
  end.

(** The call only reads the calculator. *)
Definition reads_only (c : Call) : Prop :=
  match c with
  | CGetSubComponentOffset _ _ | CGetSubComponentSizes _ _
  | CGetSignalOffset _ _ | CGetSignalSizes _ _
  | CGetSignal _ _ _ | CCheckConstraint _ _ _ | CJoin => True
  | _ => False
  end.

(** The call is not [reset]. *)
Definition not_reset (c : Call) : Prop :=
  match c with
  | CReset => False
  | _ => True
  end.

(** Signal [s] has been assigned the value [v]. *)
Definition assigned_holds (s : nat) (v : BigInt) (st : State) : Prop :=
  signalValues st !! s = Some v /\ signalAssigned st !! s = Some true.

(** How many times component [c] was started on a thread of its own. *)
Definition starts (c : nat) (st : State) : nat :=
  count_occ Nat.eq_dec (threads st) c.

(** The call is neither [reset] nor [triggerComponent]. *)
Definition counting_call (c : Call) : Prop :=
  match c with
  | CReset | CTriggerComponent _ => False
  | _ => True
  end.

(** Since it had [n] starts, component [c] was started at most once more,
    and then its counter is spent. *)
Definition started_once (c n : nat) (st : State) : Prop :=
  exists p, inputSignalsToTrigger st !! c = Some p /\
            (starts c st = n \/ (starts c st = S n /\ (p <= 0)%Z)).

(** The counter of [c] is spent and [c] has [n] starts. *)
Definition spent (c n : nat) (st : State) : Prop :=
  exists p, inputSignalsToTrigger st !! c = Some p /\ (p <= 0)%Z /\
            starts c st = n.

(** [reset] fires component [i]: it has no input. *)
Definition fires (circuit : Circom_Circuit) (i : nat) : bool :=
  match components circuit !! i with
  | Some comp => (inputSignals comp =? 0)%nat
  | None => false
  end.

(** The components that [reset] fires among [lo .. lo + n - 1], in the
    order of the loop. *)
Definition fired (circuit : Circom_Circuit) (lo n : nat) : list nat :=
  filter (fun i => fires circuit i = true) (seq lo n).

(** No component without input runs on the thread of its caller. *)
Definition inputless_on_threads (circuit : Circom_Circuit) : Prop :=
  forall i comp,
    (i < NComponents circuit)%nat ->
    components circuit !! i = Some comp ->
    inputSignals comp = 0%nat -> newThread comp = true.

(** The mutexes a thread may hold, by control point of [getSignal]: the
    one of the producing component while it tests the counter and until
    it has unlocked, none otherwise. *)
Definition gs_locks (NMUTEXES me cIdx : nat) (pc : gs_pc) (sh : Shared)
  : Prop :=
  match pc with
  | GS_test | GS_unlock =>
      forall slot, holds me slot sh <-> slot = (cIdx mod NMUTEXES)%nat
  | GS_fail _ => True
  | _ => forall slot, ~ holds me slot sh
  end.

(** The same for [join]: the mutex of the component under test, or none. *)
Definition join_locks (NMUTEXES me : nat) (pc : join_pc) (sh : Shared)
  : Prop :=
  match pc with
  | J_test i | J_unlock i =>
      forall slot, holds me slot sh <-> slot = (i mod NMUTEXES)%nat
  | J_fail _ => True
  | _ => forall slot, ~ holds me slot sh
  end.

(** The thread held no mutex when the history began. *)
Definition began_free {PC : Type} (me : nat) (h : list (PC * Shared))
  : Prop :=
  forall cfg, last h = Some cfg -> forall slot, ~ holds me slot (snd cfg).

(** How a call stops short of returning. *)
Inductive stop :=
| Thrown (e : error)
| Waits
| Cut.

Definition stop_of {A} (o : outcome A) : option stop :=
  match o with
  | Ret _ => None
  | Throw e => Some (Thrown e)
  | Blocked => Some Waits
  | OutOfFuel => Some Cut
  end.

(** Whenever the operation stops short, it does so in a way that [P]
    allows. *)
Definition stops_in (P : stop -> Prop) {A} (m : M A) : Prop :=
  forall st s, stop_of (fst (m st)) = Some s -> P s.

(** The errors that only the sanity checks raise. *)
Definition sanity_error (e : error) : bool :=
  match e with
  | SignalAssignedTwice _ | NotAssignedSignal _ | ConstraintDoesntMatch => true
  | _ => false
  end.

Definition no_sanity_stop (s : stop) : Prop :=
  match s with
  | Thrown e => sanity_error e = false
  | _ => True
  end.

Definition no_wait (s : stop) : Prop := s <> Waits.

(** The call is neither [getSignal] nor [join]. *)
Definition never_waits (c : Call) : Prop :=
  match c with
  | CGetSignal _ _ _ | CJoin => False
  | _ => True
  end.

(** * Properties *)

(** ** Scenarios of the specification *)

(** S1: the driver sets signal 1 to 3; the component runs and finishes;
    [join] returns and the signals are [1, 3]. *)
Example scenario_S1 :
  let st := session identity_circuit false
              [(5%nat, Do (CSetSignal 0 0 1 3%Z) (fun _ => Return))]
              (snd (Circom_CalcWit identity_circuit false 5 junk)) in
  join identity_circuit st = (Ret tt, st) /\
  signalValues st = [1; 3]%Z /\ inputSignalsToTrigger st = [-1]%Z.
Proof. vm_compute. repeat split. Qed.

(** S2: the driver sets the inputs to 50 and 60; the second write fires the
    adder, and the signals are [1, 50, 60, 9]. *)
Example scenario_S2 :
  let st := session adder_circuit false [(9%nat, adder_inputs)]
              (snd (Circom_CalcWit adder_circuit false 9 junk)) in
  join adder_circuit st = (Ret tt, st) /\
  signalValues st = [1; 50; 60; 9]%Z /\ threads st = [].
Proof. vm_compute. repeat split. Qed.

(** The life of the adder's counter in S2: restored from whatever the
    fresh memory held, taken down by the two inputs, closed by [finished]. *)
Example scenario_S2_journal :
  journal (session adder_circuit false [(9%nat, adder_inputs)]
             (snd (Circom_CalcWit adder_circuit false 9 junk)))
  = [{| pw_cause := ByReset; pw_cIdx := 0; pw_old := 3; pw_new := 2 |};
     {| pw_cause := BySetSignal 1; pw_cIdx := 0; pw_old := 2; pw_new := 1 |};
     {| pw_cause := BySetSignal 2; pw_cIdx := 0; pw_old := 1; pw_new := 0 |};
     {| pw_cause := ByFinished; pw_cIdx := 0; pw_old := 0; pw_new := -1 |}].
Proof. vm_compute. reflexivity. Qed.

(** S5: both colliding names resolve, each to its own record, and a third
    name with the same low byte is not found. *)
Example scenario_S5 :
  getSignalOffset collision_circuit 0 257 = Ok 1%Z /\
  getSubComponentOffset collision_circuit 0 513 = Ok 1%Z /\
  getSubComponentSizes collision_circuit 0 513 = Ok [2%Z] /\
  getSignalOffset collision_circuit 0 769 = Err (HashNotFound 769).
Proof. vm_compute. repeat split. Qed.

(** A component with a thread of its own is started, not run, by the call
    that fires it; a reader of its signal has to wait until it has run. *)
Example scenario_thread :
  threads collision_started = [1%nat] /\
  inputSignalsToTrigger collision_started = [1; 0]%Z /\
  fst (getSignal collision_circuit false 0 1 2 collision_started) = Blocked /\
  inputSignalsToTrigger collision_produced = [1; -1]%Z /\
  fst (getSignal collision_circuit false 0 1 2 collision_produced)
  = Ret 10%Z.
Proof. vm_compute. repeat split. Qed.

(** ** Symbol lookup *)

Lemma probe_skips n tbl h key s :
  tbl !! h = Some s -> hash s <> key -> hash s <> 0%Z ->
  probe (S n) tbl h key = probe n tbl (S h) key.
Proof.
  intros Hs Hk H0. simpl. rewrite Hs.
  destruct (Z.eqb_spec key (hash s)) as [->|_]; [done|].
  destruct (Z.eqb_spec (hash s) 0) as [E|_]; [done|]. reflexivity.
Qed.

Lemma probe_at n tbl h key s :
  tbl !! h = Some s -> hash s = key \/ hash s = 0%Z ->
  probe n tbl h key
  = if (key =? hash s)%Z then Ok h else Err (HashNotFound key).
Proof.
  intros Hs Hstop. destruct n; simpl; rewrite Hs;
    destruct (Z.eqb_spec key (hash s)) as [E|NE]; try reflexivity;
    (destruct Hstop as [E|E]; [congruence|]);
    rewrite E; reflexivity.
Qed.

(** The bound on the iterations never cuts a probe short. *)
Lemma probe_bound n : forall tbl h key,
  (length tbl <= h + n)%nat ->
  probe (S n) tbl h key = probe n tbl h key.
Proof.
  induction n as [|n IH]; intros tbl h key Hlen.
  - assert (tbl !! h = None) as Hh by (apply lookup_ge_None; lia).
    simpl. by rewrite Hh.
  - change (probe (S (S n)) tbl h key)
      with (match tbl !! h with
            | None => Err (OutOfBounds A_hashTable h)
            | Some e =>
                if (key =? hash e)%Z then Ok h
                else if (hash e =? 0)%Z then Err (HashNotFound key)
                else probe (S n) tbl (S h) key
            end).
    rewrite IH by lia. reflexivity.
Qed.

(** The probe walks forward from [h] to the slot that stops it. *)
Lemma probe_walk d : forall n tbl h key slot,
  (d <= n)%nat ->
  tbl !! (h + d)%nat = Some slot ->
  (hash slot = key \/ hash slot = 0%Z) ->
  (forall i, (h <= i < h + d)%nat ->
             exists s, tbl !! i = Some s /\ hash s <> key /\ hash s <> 0%Z) ->
  probe n tbl h key
  = if (key =? hash slot)%Z then Ok (h + d)%nat else Err (HashNotFound key).
Proof.
  induction d as [|d IH]; intros n tbl h key slot Hn Hslot Hstop Hbefore.
  - rewrite Nat.add_0_r in *. by apply probe_at.
  - destruct n as [|n]; [lia|].
    destruct (Hbefore h) as (s & Hs & Hk & H0); [lia|].
    rewrite (probe_skips _ _ _ _ _ Hs Hk H0).
    replace (h + S d)%nat with (S h + d)%nat in * by lia.
    apply IH; auto with lia.
Qed.

Lemma probe_stops tbl key j slot :
  probe_stops_at tbl key j slot ->
  probe (length tbl) tbl (probe_start key) key
  = if (key =? hash slot)%Z then Ok j else Err (HashNotFound key).
Proof.
  intros (Hle & Hslot & Hstop & Hbefore).
  pose proof (lookup_lt_Some _ _ _ Hslot) as Hlt.
  replace j with (probe_start key + (j - probe_start key))%nat in * by lia.
  apply probe_walk; auto with lia.
Qed.

(** Without a slot to stop at, the probe leaves the table at its end. *)
Lemma probe_runs_out d : forall n tbl h key,
  (d <= n)%nat -> (h + d = length tbl)%nat ->
  (forall i s, (h <= i)%nat -> tbl !! i = Some s ->
               hash s <> key /\ hash s <> 0%Z) ->
  probe n tbl h key = Err (OutOfBounds A_hashTable (length tbl)).
Proof.
  induction d as [|d IH]; intros n tbl h key Hn Hlen Hnone.
  - assert (tbl !! h = None) as Hh by (apply lookup_ge_None; lia).
    destruct n; simpl; rewrite Hh; do 3 f_equal; lia.
  - destruct n as [|n]; [lia|].
    destruct (lookup_lt_is_Some_2 tbl h) as [s Hs]; [lia|].
    destruct (Hnone h s) as [Hk H0]; auto.
    rewrite (probe_skips _ _ _ _ _ Hs Hk H0).
    apply IH; auto with lia.
    intros i s' Hi. apply Hnone. lia.
Qed.

(** The first slot that stops the probe, when there is one. *)
Lemma first_stop d : forall tbl key h,
  (h + d = length tbl)%nat ->
  (exists j slot, (h <= j)%nat /\ tbl !! j = Some slot /\
                  (hash slot = key \/ hash slot = 0%Z)) ->
  exists j slot, (h <= j)%nat /\ tbl !! j = Some slot /\
                 (hash slot = key \/ hash slot = 0%Z) /\
                 forall i, (h <= i < j)%nat ->
                   exists s, tbl !! i = Some s /\ hash s <> key /\
                             hash s <> 0%Z.
Proof.
  induction d as [|d IH]; intros tbl key h Hlen (j & slot & Hj & Hslot & Hstop).
  - apply lookup_lt_Some in Hslot. lia.
  - destruct (lookup_lt_is_Some_2 tbl h) as [s Hs]; [lia|].
    destruct (decide (hash s = key)) as [Hk|Hk].
    { exists h, s. repeat split; auto. intros i Hi. lia. }
    destruct (decide (hash s = 0%Z)) as [H0|H0].
    { exists h, s. repeat split; auto. intros i Hi. lia. }
    destruct (IH tbl key (S h)) as (j' & slot' & Hj' & Hslot' & Hstop' & Hbef).
    + lia.
    + exists j, slot. repeat split; auto.
      destruct (decide (j = h)) as [->|]; [|lia].
      rewrite Hs in Hslot. injection Hslot as <-. tauto.
    + exists j', slot'. repeat split; auto with lia.
      intros i Hi. destruct (decide (i = h)) as [->|].
      * exists s. auto.
      * apply Hbef. lia.
Qed.

(** C1.  Symbol lookup, for every component and every key: the probe starts
    at slot [key & 0xFF] and goes forward one slot at a time; at the first
    slot that holds the key or is free it stops.  When that slot holds the
    key, each accessor answers from the record [entries[pos]]: its offset
    (its sizes), or the invalid-type error when the record is not of the
    type the accessor expects (Signal for the signal accessors, Component
    for the sub-component ones).  When it does not hold the key, so that it
    is a free slot, each accessor raises the not-found error that carries
    the key. *)
Theorem lookup_probes_forward circuit cIdx key comp j slot :
  components circuit !! cIdx = Some comp ->
  probe_stops_at (hashTable comp) key j slot ->
  (hash slot = key ->
   forall ent, entries comp !! pos slot = Some ent ->
     getSignalOffset circuit cIdx key = answer _typeSignal offset ent /\
     getSignalSizes circuit cIdx key = answer _typeSignal sizes ent /\
     getSubComponentOffset circuit cIdx key = answer _typeComponent offset ent /\
     getSubComponentSizes circuit cIdx key = answer _typeComponent sizes ent)
  /\
  (hash slot <> key ->
     hash slot = 0%Z /\
     getSignalOffset circuit cIdx key = Err (HashNotFound key) /\
     getSignalSizes circuit cIdx key = Err (HashNotFound key) /\
     getSubComponentOffset circuit cIdx key = Err (HashNotFound key) /\
     getSubComponentSizes circuit cIdx key = Err (HashNotFound key)).
Proof.
  intros Hcomp Hstop.
  pose proof (probe_stops _ _ _ _ Hstop) as Hprobe.
  destruct Hstop as (_ & Hslot & Hkind & _).
  unfold getSignalOffset, getSignalSizes, getSubComponentOffset,
    getSubComponentSizes, answer, at_index.
  rewrite Hcomp. simpl. rewrite Hprobe. split.
  - intros Hk ent Hent.
    destruct (Z.eqb_spec key (hash slot)) as [_|NE]; [|congruence].
    simpl. rewrite Hslot. simpl. rewrite Hent. simpl.
    by destruct (type ent).
  - intros Hk.
    destruct (Z.eqb_spec key (hash slot)) as [E|_]; [congruence|].
    destruct Hkind as [E|E]; [congruence|]. auto.
Qed.

Lemma lookup_probes_forward_witness :
  getSubComponentOffset collision_circuit 0 513 = Ok 1%Z /\
  getSignalOffset collision_circuit 0 513 = Err InvalidType /\
  getSignalOffset collision_circuit 0 769 = Err (HashNotFound 769).
Proof.
  pose (comp := collision_component).
  assert (forall i, (1 <= i < 2)%nat ->
            exists s, hashTable comp !! i = Some s /\ hash s <> 513%Z /\
                      hash s <> 0%Z) as Hbefore2.
  { intros i Hi. assert (i = 1)%nat as -> by lia.
    eexists. repeat split; simpl; lia. }
  assert (forall i, (1 <= i < 3)%nat ->
            exists s, hashTable comp !! i = Some s /\ hash s <> 769%Z /\
                      hash s <> 0%Z) as Hbefore3.
  { intros i Hi. assert (i = 1 \/ i = 2)%nat as [-> | ->] by lia;
      eexists; repeat split; simpl; lia. }
  destruct (lookup_probes_forward collision_circuit 0 513 comp 2
              {| hash := 513; pos := 1 |} eq_refl
              (conj (le_S _ _ (le_n _)) (conj eq_refl (conj (or_introl eq_refl) Hbefore2))))
    as [Hfound _].
  destruct (Hfound eq_refl _ eq_refl) as (Hso & _ & Hco & _).
  destruct (lookup_probes_forward collision_circuit 0 769 comp 3
              {| hash := 0; pos := 0 |} eq_refl
              (conj (le_S _ _ (le_S _ _ (le_n _)))
                 (conj eq_refl (conj (or_intror eq_refl) Hbefore3))))
    as [_ Hfree].
  destruct Hfree as (_ & Hnf & _); [simpl; lia|].
  exact (conj Hco (conj Hso Hnf)).
Defined.

Lemma probe_ext n : forall tbl tbl' h key,
  (forall i, (h <= i)%nat -> tbl !! i = tbl' !! i) ->
  probe n tbl h key = probe n tbl' h key.
Proof.
  induction n as [|n IH]; intros tbl tbl' h key Hext; simpl;
    rewrite <- (Hext h) by lia; [reflexivity|].
  destruct (tbl !! h) as [e|]; [|reflexivity].
  destruct (key =? hash e)%Z; [reflexivity|].
  destruct (hash e =? 0)%Z; [reflexivity|].
  apply IH. intros i Hi. apply Hext. lia.
Qed.

(** C2, as the code has it.  The probe index never wraps: it starts at
    [key & 0xFF] and only grows.  When some slot at or after the start holds
    the key or is free, the probe stops at the first such slot, inside the
    table; when none does, the probe reads past the end of the table; and
    the slots before the start are never read, so that what they hold makes
    no difference. *)
Theorem probe_never_wraps (tbl : list Circom_HashEntry) (key : Z) :
  (probe_can_stop tbl key ->
   exists j slot,
     probe_stops_at tbl key j slot /\ (j < length tbl)%nat /\
     probe (length tbl) tbl (probe_start key) key
     = if (key =? hash slot)%Z then Ok j else Err (HashNotFound key))
  /\
  (~ probe_can_stop tbl key ->
   probe (length tbl) tbl (probe_start key) key
   = Err (OutOfBounds A_hashTable (probe_start key `max` length tbl)))
  /\
  (forall tbl' : list Circom_HashEntry,
     length tbl' = length tbl ->
     drop (probe_start key) tbl' = drop (probe_start key) tbl ->
     probe (length tbl') tbl' (probe_start key) key
     = probe (length tbl) tbl (probe_start key) key).
Proof.
  split; [|split].
  - intros Hcan.
    assert (probe_start key <= length tbl)%nat as Hle.
    { destruct Hcan as (j & slot & Hj & Hslot & _).
      apply lookup_lt_Some in Hslot. lia. }
    destruct (first_stop (length tbl - probe_start key) tbl key
                (probe_start key)) as (j & slot & Hj & Hslot & Hstop & Hbef);
      [lia|exact Hcan|].
    exists j, slot.
    assert (probe_stops_at tbl key j slot) as Hat by (repeat split; auto).
    split; [exact Hat|]. split; [by eapply lookup_lt_Some|].
    by apply probe_stops.
  - intros Hnone.
    assert (forall i s, (probe_start key <= i)%nat -> tbl !! i = Some s ->
                        hash s <> key /\ hash s <> 0%Z) as Hall.
    { intros i s Hi Hs. split; intros E; apply Hnone; exists i, s; auto. }
    destruct (le_lt_dec (probe_start key) (length tbl)) as [Hle|Hgt].
    + rewrite Nat.max_r by lia.
      apply (probe_runs_out (length tbl - probe_start key)); auto with lia.
    + rewrite Nat.max_l by lia.
      assert (tbl !! probe_start key = None) as Hh
        by (apply lookup_ge_None; lia).
      destruct (length tbl); simpl; rewrite Hh; reflexivity.
  - intros tbl' Hlen Hdrop. rewrite Hlen. apply probe_ext.
    intros i Hi.
    replace i with (probe_start key + (i - probe_start key))%nat by lia.
    rewrite <- !lookup_drop. by rewrite Hdrop.
Qed.

Lemma probe_never_wraps_witness :
  exists j slot,
    probe_stops_at (hashTable collision_component) 769 j slot /\
    (j < 4)%nat /\
    probe 4 (hashTable collision_component) (probe_start 769) 769
    = if (769 =? hash slot)%Z then Ok j else Err (HashNotFound 769).
Proof.
  destruct (probe_never_wraps (hashTable collision_component) 769)
    as [Hstop _].
  apply Hstop. exists 3%nat, {| hash := 0; pos := 0 |}.
  split; [|split].
  - change (probe_start 769) with 1%nat. lia.
  - reflexivity.
  - right. reflexivity.
Defined.

(** C2 fails as stated: in a table of 256 slots whose only free slot is
    slot 0, a key that starts its probe at slot 255 and is not there is
    looked for at index 256, outside the table; the probe does not come
    back to the free slot 0. *)
Lemma probe_wraps_counterexample :
  length full_table = 256%nat /\
  full_table !! 0%nat = Some {| hash := 0; pos := 0 |} /\
  probe_start 767 = 255%nat /\
  getSignalOffset full_table_circuit 0 767
  = Err (OutOfBounds A_hashTable 256) /\
  getSubComponentOffset full_table_circuit 0 767
  = Err (OutOfBounds A_hashTable 256).
Proof. vm_compute. repeat split. Qed.

(** ** Invariants of the calculator operations *)

Ltac unfold_ops :=
  unfold setSignal, getSignal, finished, checkConstraint, triggerComponent,
    read_component, of_result, bind, ret, throw, block, out_of_fuel,
    read_signalValue, write_signalValue, read_signalAssigned,
    write_signalAssigned, read_inputSignalsToTrigger,
    write_inputSignalsToTrigger, spawn.

Ltac split_cases := repeat (case_match; simplify_eq/=).

Section Preservation.

Variable circuit : Circom_Circuit.
Variable SANITY_CHECK : bool.
Variable Inv : State -> Prop.

Lemma preserves_bind {A B} (m : M A) (f : A -> M B) :
  preserves Inv m -> (forall a, preserves Inv (f a)) ->
  preserves Inv (bind m f).
Proof.
  intros Hm Hf st HI. unfold bind. specialize (Hm st HI).
  destruct (m st) as [[a| | |] st']; simpl in *; auto. by apply Hf.
Qed.

Lemma preserves_for_range body n : forall lo,
  (forall i, (lo <= i < lo + n)%nat -> preserves Inv (body i)) ->
  preserves Inv (for_range lo n body).
Proof.
  induction n as [|n IH]; intros lo Hbody; simpl.
  - by intros st.
  - apply preserves_bind.
    + apply Hbody. lia.
    + intros _. apply IH. intros i Hi. apply Hbody. lia.
Qed.

(** An invariant that every call keeps, whoever runs the component
    functions, is kept by generated code. *)
Lemma exec_preserves (good : Call -> Prop) :
  (forall call,
     (forall comp, comp ∈ components circuit ->
                   preserves Inv (call (fn comp))) ->
     forall c, good c -> preserves Inv (perform circuit SANITY_CHECK call c)) ->
  (forall comp, comp ∈ components circuit -> AllCalls good (fn comp)) ->
  forall fuel p, AllCalls good p ->
                 preserves Inv (exec circuit SANITY_CHECK fuel p).
Proof.
  intros Hperform Hfns. induction fuel as [|fuel IH]; intros p Hp; simpl.
  - by intros st.
  - destruct p as [|c k]; [by intros st|].
    destruct Hp as [Hc Hk].
    apply preserves_bind; [|by auto].
    apply Hperform; auto.
Qed.

Lemma session_preserves (good : Call -> Prop) :
  (forall fuel p, AllCalls good p ->
                  preserves Inv (exec circuit SANITY_CHECK fuel p)) ->
  forall progs st,
    Forall (fun fp => AllCalls good (snd fp)) progs ->
    Inv st -> Inv (session circuit SANITY_CHECK progs st).
Proof.
  intros Hexec. induction progs as [|[fuel p] progs IH]; intros st Hall HI.
  - exact HI.
  - inversion Hall; subst. simpl. apply IH; [done|]. by apply Hexec.
Qed.

End Preservation.

(** *** The value of a signal that nobody sets *)

Section Frame.

Variable circuit : Circom_Circuit.
Variable SANITY_CHECK : bool.
Variable s : nat.
Variable x : option BigInt.

Variable call : Prog -> M unit.
Hypothesis call_frame :
  forall comp, comp ∈ components circuit ->
               preserves (holds_value s x) (call (fn comp)).

Lemma triggerComponent_frame c :
  preserves (holds_value s x) (triggerComponent circuit call c).
Proof.
  intros st HI. unfold holds_value in *. unfold_ops. split_cases; try done.
  eapply call_frame; [by eapply list_elem_of_lookup_2|done].
Qed.

Lemma reset_frame : preserves (holds_value s x) (reset circuit SANITY_CHECK call).
Proof.
  unfold reset. apply preserves_bind.
  - destruct SANITY_CHECK; [|by intros st].
    apply preserves_for_range. intros i _ st HI.
    unfold holds_value in *. unfold_ops. by split_cases.
  - intros _. apply preserves_for_range. intros i _.
    apply preserves_bind; [by intros st HI; unfold_ops; split_cases|].
    intros comp. apply preserves_bind.
    { intros st HI. unfold holds_value in *. unfold_ops. by split_cases. }
    intros _. apply preserves_bind.
    { intros st HI. unfold holds_value in *. unfold_ops. by split_cases. }
    intros p. destruct (p =? 0)%Z; [apply triggerComponent_frame|by intros st].
Qed.

Lemma join_frame : preserves (holds_value s x) (join circuit).
Proof.
  unfold join. apply preserves_for_range. intros i _ st HI.
  unfold holds_value in *. unfold_ops. by split_cases.
Qed.

Lemma setSignal_frame cur c sIdx v :
  sIdx <> s ->
  preserves (holds_value s x) (setSignal circuit SANITY_CHECK call cur c sIdx v).
Proof.
  intros Hne st HI. unfold holds_value in *. unfold_ops.
  split_cases; try done; try (by rewrite list_lookup_insert_ne).
  all: eapply call_frame; [by eapply list_elem_of_lookup_2|];
    unfold holds_value; simpl; by rewrite list_lookup_insert_ne.
Qed.

Lemma perform_frame c :
  spares s c -> preserves (holds_value s x) (perform circuit SANITY_CHECK call c).
Proof.
  intros Hc. destruct c; simpl in *;
    (apply preserves_bind; [|by intros ? st]).
  1-4: by intros st HI; unfold holds_value in *; unfold_ops; split_cases.
  - intros st HI. unfold holds_value in *. unfold_ops. by split_cases.
  - by apply setSignal_frame.
  - intros st HI. unfold holds_value in *. unfold_ops. by split_cases.
  - intros st HI. unfold holds_value in *. unfold_ops. by split_cases.
  - apply triggerComponent_frame.
  - apply reset_frame.
  - apply join_frame.
Qed.

End Frame.

Lemma exec_frame circuit SANITY_CHECK s x fuel p :
  (forall comp, comp ∈ components circuit -> AllCalls (spares s) (fn comp)) ->
  AllCalls (spares s) p ->
  preserves (holds_value s x) (exec circuit SANITY_CHECK fuel p).
Proof.
  intros Hfns Hp. apply (exec_preserves _ _ _ (spares s)); auto.
  intros call Hcall c Hc. by apply perform_frame.
Qed.

(** *** The reserved signal in sanity builds *)

Section Guard.

Variable circuit : Circom_Circuit.
Variable call : Prog -> M unit.
Hypothesis call_guard :
  forall comp, comp ∈ components circuit ->
               preserves one_guarded (call (fn comp)).

Ltac guard_leaf :=
  unfold one_guarded in *; simpl in *;
  rewrite ?list_lookup_insert_ne by lia; intuition congruence.

Lemma triggerComponent_guard c :
  preserves one_guarded (triggerComponent circuit call c).
Proof.
  intros st HI. unfold_ops. split_cases; try done.
  eapply call_guard; [by eapply list_elem_of_lookup_2|done].
Qed.

Lemma reset_guard : preserves one_guarded (reset circuit true call).
Proof.
  unfold reset. apply preserves_bind.
  - apply preserves_for_range. intros i Hi st HI.
    unfold_ops. split_cases; guard_leaf.
  - intros _. apply preserves_for_range. intros i _.
    apply preserves_bind; [by intros st HI; unfold_ops; split_cases|].
    intros comp. apply preserves_bind.
    { intros st HI. unfold_ops. split_cases; guard_leaf. }
    intros _. apply preserves_bind.
    { intros st HI. unfold_ops. by split_cases. }
    intros p. destruct (p =? 0)%Z; [apply triggerComponent_guard|by intros st].
Qed.

Lemma setSignal_guard cur c sIdx v :
  preserves one_guarded (setSignal circuit true call cur c sIdx v).
Proof.
  intros st HI. unfold_ops.
  destruct (decide (sIdx = 0%nat)) as [->|Hne].
  - destruct HI as [Hv Ha]. rewrite Ha. simpl. by split.
  - split_cases; try done; try guard_leaf.
    all: eapply call_guard; [by eapply list_elem_of_lookup_2|guard_leaf].
Qed.

Lemma perform_guard c :
  preserves one_guarded (perform circuit true call c).
Proof.
  destruct c; simpl in *;
    (apply preserves_bind; [|by intros ? st]).
  1-4: by intros st HI; unfold_ops; split_cases.
  - intros st HI. unfold_ops. by split_cases.
  - apply setSignal_guard.
  - intros st HI. unfold_ops. by split_cases.
  - intros st HI. unfold_ops. split_cases; guard_leaf.
  - apply triggerComponent_guard.
  - apply reset_guard.
  - unfold join. apply preserves_for_range. intros i _ st HI.
    unfold_ops. by split_cases.
Qed.

End Guard.

Lemma exec_guard circuit fuel p :
  preserves one_guarded (exec circuit true fuel p).
Proof.
  apply (exec_preserves _ _ _ any_call).
  - intros call Hcall c _. by apply perform_guard.
  - intros comp _. induction (fn comp); simpl; auto. by split.
  - induction p; simpl; auto. by split.
Qed.

(** *** The life of the trigger counters *)

Lemma replays_app ws1 : forall ws2 a b c,
  replays ws1 a b -> replays ws2 b c -> replays (ws1 ++ ws2) a c.
Proof.
  induction ws1 as [|w ws1 IH]; intros ws2 a b c H1 H2; simpl in *.
  - by subst.
  - destruct H1 as [Hold H1]. split; [done|]. by eapply IH.
Qed.

Lemma evolves_refl circuit st : evolves circuit st st.
Proof. exists []. by rewrite app_nil_r. Qed.

Lemma evolves_trans circuit st1 st2 st3 :
  evolves circuit st1 st2 -> evolves circuit st2 st3 ->
  evolves circuit st1 st3.
Proof.
  intros (ws1 & Hj1 & Hl1 & Hr1) (ws2 & Hj2 & Hl2 & Hr2).
  exists (ws1 ++ ws2). split; [by rewrite Hj2, Hj1, app_assoc|].
  split; [by apply Forall_app|by eapply replays_app].
Qed.

Lemma evolves_same circuit st0 st st' :
  evolves circuit st0 st ->
  journal st' = journal st ->
  inputSignalsToTrigger st' = inputSignalsToTrigger st ->
  evolves circuit st0 st'.
Proof.
  intros H Hj Hp. eapply evolves_trans; [exact H|].
  exists []. rewrite Hj, Hp, app_nil_r. by repeat split.
Qed.

Lemma evolves_write circuit st0 st st' who c old new :
  evolves circuit st0 st ->
  journal st'
  = journal st ++ [{| pw_cause := who; pw_cIdx := c;
                      pw_old := old; pw_new := new |}] ->
  inputSignalsToTrigger st' = <[c := new]> (inputSignalsToTrigger st) ->
  inputSignalsToTrigger st !! c = Some old ->
  legit circuit {| pw_cause := who; pw_cIdx := c;
                   pw_old := old; pw_new := new |} ->
  evolves circuit st0 st'.
Proof.
  intros H Hj Hp Hold Hw. eapply evolves_trans; [exact H|].
  eexists. rewrite Hj, Hp. split; [done|].
  split; [by repeat constructor|]. simpl. by split.
Qed.

Section Counters.

Variable circuit : Circom_Circuit.
Variable SANITY_CHECK : bool.
Variable st0 : State.
Variable call : Prog -> M unit.
Hypothesis call_evolves :
  forall comp st1, comp ∈ components circuit ->
                   preserves (evolves circuit st1) (call (fn comp)).

Ltac same_leaf := by (eapply evolves_same; [eassumption|done|done]).
Ltac write_leaf :=
  eapply evolves_write;
  [eassumption|simpl; reflexivity|simpl; reflexivity|eassumption|];
  unfold legit; simpl.

Lemma triggerComponent_evolves c :
  preserves (evolves circuit st0) (triggerComponent circuit call c).
Proof.
  intros st HI. unfold_ops. split_cases; try done; try same_leaf.
  eapply call_evolves; [by eapply list_elem_of_lookup_2|done].
Qed.

Lemma reset_evolves :
  preserves (evolves circuit st0) (reset circuit SANITY_CHECK call).
Proof.
  unfold reset. apply preserves_bind.
  - destruct SANITY_CHECK; [|by intros st].
    apply preserves_for_range. intros i _ st HI.
    unfold_ops. split_cases; try done; same_leaf.
  - intros _. apply preserves_for_range. intros i _ st HI.
    unfold_ops. split_cases; try done; try same_leaf.
    all: try (eapply call_evolves; [by eapply list_elem_of_lookup_2|]).
    all: write_leaf; eauto.
Qed.

Lemma setSignal_evolves cur c sIdx v :
  preserves (evolves circuit st0)
    (setSignal circuit SANITY_CHECK call cur c sIdx v).
Proof.
  intros st HI. unfold_ops. split_cases; try done; try same_leaf.
  all: try (eapply call_evolves; [by eapply list_elem_of_lookup_2|]).
  all: write_leaf; repeat split; auto; lia.
Qed.

Lemma perform_evolves c :
  preserves (evolves circuit st0) (perform circuit SANITY_CHECK call c).
Proof.
  destruct c; simpl in *;
    (apply preserves_bind; [|by intros ? st]).
  1-4: by intros st HI; unfold_ops; split_cases.
  - intros st HI. unfold_ops. by split_cases.
  - apply setSignal_evolves.
  - intros st HI. unfold_ops. by split_cases.
  - intros st HI. unfold_ops. split_cases; try done.
    by write_leaf.
  - apply triggerComponent_evolves.
  - apply reset_evolves.
  - unfold join. apply preserves_for_range. intros i _ st HI.
    unfold_ops. by split_cases.
Qed.

End Counters.

Lemma all_calls_any p : AllCalls any_call p.
Proof. induction p; simpl; auto. by split. Qed.

Lemma exec_evolves circuit SANITY_CHECK fuel : forall p st0,
  preserves (evolves circuit st0) (exec circuit SANITY_CHECK fuel p).
Proof.
  induction fuel as [|fuel IH]; intros p st0; simpl; [by intros st|].
  destruct p as [|c k]; [by intros st|].
  apply preserves_bind; [|by auto].
  apply perform_evolves. intros comp st1 _. apply IH.
Qed.

(** A counter that [reset] does not write goes down or to [-1]. *)
Lemma replays_down circuit c ws : forall before after v,
  replays ws before after ->
  Forall (legit circuit) ws ->
  Forall (fun w => pw_cIdx w = c -> pw_cause w <> ByReset) ws ->
  before !! c = Some v ->
  exists v', after !! c = Some v' /\
             (v' = v \/ v' = (-1)%Z \/ (0 <= v' < v)%Z).
Proof.
  induction ws as [|w ws IH]; intros before after v Hr Hl Hn Hv; simpl in *.
  - subst. eauto.
  - destruct Hr as [Hold Hr].
    inversion Hl as [|? ? Hw Hl']; subst.
    inversion Hn as [|? ? Hc Hn']; subst.
    destruct (decide (pw_cIdx w = c)) as [E|NE].
    + subst c. rewrite Hold in Hv. injection Hv as <-.
      destruct (IH _ _ (pw_new w) Hr Hl' Hn') as (v' & Hv' & Hcases).
      { apply list_lookup_insert_eq. by eapply lookup_lt_Some. }
      exists v'. split; [done|].
      specialize (Hc eq_refl). unfold legit in Hw.
      destruct (pw_cause w); [done| |]; lia.
    + apply (IH _ _ v Hr Hl' Hn'). by rewrite list_lookup_insert_ne.
Qed.

Lemma legit_finished_only circuit w :
  legit circuit w -> pw_new w = (-1)%Z -> pw_cause w = ByFinished.
Proof.
  unfold legit. destruct (pw_cause w); [|lia|done].
  intros (comp & _ & ->). lia.
Qed.

Lemma session_evolves circuit SANITY_CHECK progs : forall st,
  evolves circuit st (session circuit SANITY_CHECK progs st).
Proof.
  induction progs as [|[fuel p] progs IH]; intros st; simpl.
  - apply evolves_refl.
  - eapply evolves_trans; [|apply IH].
    apply exec_evolves, evolves_refl.
Qed.

(** C6.  The trigger counters, under any programs run one after the other
    from any state, each cut at any point: the counters are written only by
    writes of three kinds, all recorded in order in the journal, which
    leads from the counters before to the counters after.  [reset] stores
    the number of inputs of the component; [setSignal] on a signal marked
    in [mapIsInput] takes exactly one off a counter that is positive;
    [finished] stores [-1].  So a write of [-1] is a write of [finished];
    and a counter that [reset] does not write goes down, or to [-1], or
    stays, and stays [-1] once it is [-1]. *)
Theorem counters_only_go_down circuit SANITY_CHECK progs st :
  exists ws,
    journal (session circuit SANITY_CHECK progs st) = journal st ++ ws /\
    replays ws (inputSignalsToTrigger st)
      (inputSignalsToTrigger (session circuit SANITY_CHECK progs st)) /\
    Forall (legit circuit) ws /\
    Forall (fun w => pw_new w = (-1)%Z -> pw_cause w = ByFinished) ws /\
    forall c v,
      Forall (fun w => pw_cIdx w = c -> pw_cause w <> ByReset) ws ->
      inputSignalsToTrigger st !! c = Some v ->
      exists v',
        inputSignalsToTrigger (session circuit SANITY_CHECK progs st) !! c
        = Some v' /\
        (v' = v \/ v' = (-1)%Z \/ (0 <= v' < v)%Z) /\
        (v = (-1)%Z -> v' = (-1)%Z).
Proof.
  destruct (session_evolves circuit SANITY_CHECK progs st)
    as (ws & Hj & Hl & Hr).
  exists ws. repeat split; auto.
  - eapply Forall_impl; [exact Hl|].
    intros w Hw. by apply (legit_finished_only circuit).
  - intros c v Hn Hv.
    destruct (replays_down circuit c ws _ _ v Hr Hl Hn Hv) as (v' & Hv' & Hc).
    exists v'. repeat split; auto. lia.
Qed.

(** *** Construction *)

Lemma fill_signals v n : forall lo st,
  (lo + n <= length (signalValues st))%nat ->
  exists st',
    for_range lo n (fun i => write_signalValue i v) st = (Ret tt, st') /\
    (forall i, signalValues st' !! i
               = if decide (lo <= i < lo + n)%nat then Some v
                 else signalValues st !! i) /\
    signalAssigned st' = signalAssigned st /\
    inputSignalsToTrigger st' = inputSignalsToTrigger st /\
    threads st' = threads st /\ journal st' = journal st.
Proof.
  induction n as [|n IH]; intros lo st Hlen; simpl.
  - exists st. repeat split; auto. intros i. case_decide; [lia|done].
  - destruct (lookup_lt_is_Some_2 (signalValues st) lo) as [old Hold]; [lia|].
    unfold bind at 1. unfold write_signalValue at 1. rewrite Hold.
    match goal with |- context [for_range _ _ _ ?s] => set (st1 := s) end.
    destruct (IH (S lo) st1) as (st' & Hrun & Hval & Ha & Hp & Ht & Hj).
    { simpl. rewrite length_insert. lia. }
    exists st'. split; [exact Hrun|]. repeat split; auto.
    intros i. rewrite Hval. simpl.
    destruct (decide (i = lo)) as [->|NE].
    + rewrite list_lookup_insert_eq by lia. repeat case_decide; auto; lia.
    + rewrite list_lookup_insert_ne by lia. repeat case_decide; auto; lia.
Qed.

(** The constructor, before it calls [reset]: signal 0 holds 1, the other
    signals hold 0, and in sanity builds signal 0 is marked. *)
Lemma init_signals_spec circuit SANITY_CHECK u :
  (0 < NSignals circuit)%nat ->
  exists st,
    init_signals circuit SANITY_CHECK (allocated circuit SANITY_CHECK u)
    = (Ret tt, st) /\
    signalValues st !! 0%nat = Some (mpz_init_set_ui 1) /\
    (forall i, (1 <= i < NSignals circuit)%nat ->
               signalValues st !! i = Some (mpz_init2 256)) /\
    (SANITY_CHECK = true -> signalAssigned st !! 0%nat = Some true).
Proof.
  intros Hpos. unfold init_signals.
  set (st0 := allocated circuit SANITY_CHECK u).
  assert (length (signalValues st0) = NSignals circuit) as Hlen
    by (simpl; by rewrite length_map, length_seq).
  assert (exists st1,
    (if SANITY_CHECK then write_signalAssigned 0 true else ret tt) st0
    = (Ret tt, st1) /\ signalValues st1 = signalValues st0 /\
    (SANITY_CHECK = true -> signalAssigned st1 !! 0%nat = Some true))
    as (st1 & Hrun1 & Hv1 & Ha1).
  { destruct SANITY_CHECK eqn:ES.
    - unfold write_signalAssigned.
      destruct (lookup_lt_is_Some_2 (signalAssigned st0) 0) as [b Hb].
      { simpl. rewrite length_map, length_seq. lia. }
      rewrite Hb. eexists. split; [reflexivity|]. split; [done|].
      intros _. simpl. apply list_lookup_insert_eq. by eapply lookup_lt_Some.
    - exists st0. by repeat split. }
  unfold bind at 1. rewrite Hrun1.
  destruct (lookup_lt_is_Some_2 (signalValues st1) 0) as [old Hold];
    [rewrite Hv1; lia|].
  unfold bind at 1. unfold write_signalValue at 1. rewrite Hold.
  match goal with |- context [for_range _ _ _ ?s] => set (st2 := s) end.
  destruct (fill_signals (mpz_init2 256) (NSignals circuit - 1) 1 st2)
    as (st & Hrun & Hval & Ha & _).
  { simpl. rewrite length_insert, Hv1. lia. }
  exists st. split; [exact Hrun|]. repeat split.
  - rewrite Hval. case_decide; [lia|]. simpl.
    apply list_lookup_insert_eq. rewrite Hv1. lia.
  - intros i Hi. rewrite Hval. case_decide; [done|lia].
  - intros ES. rewrite Ha. simpl. auto.
Qed.

Lemma Circom_CalcWit_reset circuit SANITY_CHECK fuel u st :
  init_signals circuit SANITY_CHECK (allocated circuit SANITY_CHECK u)
  = (Ret tt, st) ->
  snd (Circom_CalcWit circuit SANITY_CHECK fuel u)
  = snd (reset circuit SANITY_CHECK (exec circuit SANITY_CHECK fuel) st).
Proof. intros H. unfold Circom_CalcWit, bind at 1. by rewrite H. Qed.

(** C3, as the code has it.  In a build with the sanity checks the signal
    0 holds 1 from construction on, whatever is run on the calculator; in
    a build without them it does as long as neither the programs run nor
    the component functions call [setSignal] on signal 0. *)
Theorem one_signal_stays_one circuit SANITY_CHECK fuel u progs :
  (0 < NSignals circuit)%nat ->
  SANITY_CHECK = true \/
  ((forall comp, comp ∈ components circuit ->
                 AllCalls (spares 0) (fn comp)) /\
   Forall (fun fp => AllCalls (spares 0) (snd fp)) progs) ->
  signalValues
    (session circuit SANITY_CHECK progs
       (snd (Circom_CalcWit circuit SANITY_CHECK fuel u))) !! 0%nat
  = Some 1%Z.
Proof.
  intros Hpos Hmode.
  destruct (init_signals_spec circuit SANITY_CHECK u Hpos)
    as (st & Hinit & Hone & _ & Hmark).
  rewrite (Circom_CalcWit_reset _ _ _ _ _ Hinit).
  destruct Hmode as [->|[Hfns Hprogs]].
  - cut (one_guarded (session circuit true progs
           (snd (reset circuit true (exec circuit true fuel) st)))).
    { by intros [H _]. }
    apply (session_preserves _ _ _ any_call).
    + intros f p _. apply exec_guard.
    + apply Forall_forall. intros fp _. apply all_calls_any.
    + apply reset_guard; [|split; auto].
      intros comp _. apply exec_guard.
  - change (holds_value 0 (Some 1%Z) (session circuit SANITY_CHECK progs
           (snd (reset circuit SANITY_CHECK (exec circuit SANITY_CHECK fuel) st)))).
    apply (session_preserves _ _ _ (spares 0)); [|done|].
    + intros f p Hp. by apply exec_frame.
    + apply reset_frame; [|done].
      intros comp Hin. apply exec_frame; auto.
Qed.

Lemma one_signal_stays_one_witness :
  signalValues
    (session identity_circuit false
       [(5%nat, Do (CSetSignal 0 0 1 3%Z) (fun _ => Return))]
       (snd (Circom_CalcWit identity_circuit false 5 junk))) !! 0%nat
  = Some 1%Z.
Proof.
  apply one_signal_stays_one; [simpl; lia|]. right. split.
  - intros comp Hin. apply list_elem_of_singleton in Hin. subst comp.
    simpl. auto.
  - repeat constructor. simpl. lia.
Defined.

(** C3 fails as stated: without the sanity checks, [setSignal] on signal
    0 stores what it is given. *)
Lemma one_signal_overwritten :
  signalValues identity_ready !! 0%nat = Some 1%Z /\
  signalValues
    (snd (setSignal identity_circuit false (exec identity_circuit false 5)
            0 0 0 5%Z identity_ready)) !! 0%nat
  = Some 5%Z.
Proof. vm_compute. split; reflexivity. Qed.

(** ** The signal store *)

(** C4.  [setSignal(currentComponentIdx, cIdx, sIdx, value)], on a signal
    and a component that exist and, in sanity builds, a signal not yet
    assigned: it stores [value] in [signalValues[sIdx]] and leaves the other
    signals; the counter of [cIdx] goes down by exactly one if and only if
    the bit of [sIdx] in [mapIsInput] is set and the counter is positive,
    and no other counter changes; and [triggerComponent(cIdx)] is called,
    once and as the last thing, if and only if that write brought the
    counter to 0. *)
Theorem setSignal_counts circuit SANITY_CHECK call cur cIdx sIdx value st old p :
  signalValues st !! sIdx = Some old ->
  inputSignalsToTrigger st !! cIdx = Some p ->
  (SANITY_CHECK = true -> signalAssigned st !! sIdx = Some false) ->
  let counted := BITMAP_ISSET (mapIsInput circuit) sIdx && (p >? 0)%Z in
  exists st',
    signalValues st' !! sIdx = Some value /\
    (forall s, s <> sIdx -> signalValues st' !! s = signalValues st !! s) /\
    inputSignalsToTrigger st' !! cIdx = Some (if counted then p - 1 else p)%Z /\
    (forall c, c <> cIdx ->
               inputSignalsToTrigger st' !! c = inputSignalsToTrigger st !! c) /\
    threads st' = threads st /\
    setSignal circuit SANITY_CHECK call cur cIdx sIdx value st
    = if counted && (p - 1 =? 0)%Z
      then triggerComponent circuit call cIdx st'
      else (Ret tt, st').
Proof.
  intros Hold Hp Hfree counted. subst counted.
  pose proof (lookup_lt_Some _ _ _ Hold) as Hs.
  pose proof (lookup_lt_Some _ _ _ Hp) as Hc.
  unfold setSignal.
  assert (exists st1,
    (if SANITY_CHECK
     then let* a := read_signalAssigned sIdx in
          if a then throw (SignalAssignedTwice sIdx)
          else write_signalAssigned sIdx true
     else ret tt) st = (Ret tt, st1) /\
    signalValues st1 = signalValues st /\
    inputSignalsToTrigger st1 = inputSignalsToTrigger st /\
    threads st1 = threads st /\ journal st1 = journal st)
    as (st1 & Hrun1 & Hv1 & Hp1 & Ht1 & Hj1).
  { destruct SANITY_CHECK.
    - unfold_ops. rewrite !(Hfree eq_refl). eexists. by split_and!.
    - exists st. by split_and!. }
  unfold bind at 1. rewrite Hrun1.
  unfold bind at 1. unfold write_signalValue at 1. rewrite Hv1, Hold.
  destruct (BITMAP_ISSET (mapIsInput circuit) sIdx); simpl.
  - unfold bind at 1. unfold read_inputSignalsToTrigger at 1. simpl.
    rewrite Hp1, Hp.
    destruct (p >? 0)%Z; simpl.
    + unfold bind at 1. unfold write_inputSignalsToTrigger at 1. simpl.
      rewrite Hp.
      unfold bind at 1. unfold read_inputSignalsToTrigger at 1. simpl.
      rewrite list_lookup_insert_eq by done.
      eexists. split_and!;
        last (destruct (p - 1 =? 0)%Z; reflexivity); simpl.
      * by apply list_lookup_insert_eq.
      * intros s Hne. by rewrite list_lookup_insert_ne.
      * by apply list_lookup_insert_eq.
      * intros c Hne. by rewrite list_lookup_insert_ne.
      * done.
    + eexists. split_and!; last reflexivity; simpl.
      * by apply list_lookup_insert_eq.
      * intros s Hne. by rewrite list_lookup_insert_ne.
      * done.
      * done.
      * done.
  - eexists. split_and!; last reflexivity; simpl.
    * by apply list_lookup_insert_eq.
    * intros s Hne. by rewrite list_lookup_insert_ne.
    * by rewrite Hp1.
    * intros c Hne. by rewrite Hp1.
    * done.
Qed.

Lemma setSignal_counts_witness :
  exists st',
    signalValues st' !! 1%nat = Some 3%Z /\
    inputSignalsToTrigger st' !! 0%nat = Some 0%Z /\
    setSignal identity_circuit false (exec identity_circuit false 5)
      0 0 1 3%Z identity_ready
    = triggerComponent identity_circuit (exec identity_circuit false 5) 0 st'.
Proof.
  destruct (setSignal_counts identity_circuit false
              (exec identity_circuit false 5) 0 0 1 3%Z identity_ready 0%Z 1%Z)
    as (st' & Hv & _ & Hp & _ & _ & Hrun);
    [reflexivity|reflexivity|discriminate|].
  exists st'. exact (conj Hv (conj Hp Hrun)).
Defined.

(** ** The trigger counters *)

(** C10.  [finished(cIdx)], for a component that exists: whatever its
    counter holds and whether or not its function ever ran, the counter is
    set to [-1]; no other counter changes, and neither do the signal
    values, the marks or the threads. *)
Theorem finished_frame cIdx st p :
  inputSignalsToTrigger st !! cIdx = Some p ->
  exists st',
    finished cIdx st = (Ret tt, st') /\
    inputSignalsToTrigger st' !! cIdx = Some (-1)%Z /\
    (forall c, c <> cIdx ->
               inputSignalsToTrigger st' !! c = inputSignalsToTrigger st !! c) /\
    signalValues st' = signalValues st /\
    signalAssigned st' = signalAssigned st /\
    threads st' = threads st.
Proof.
  intros Hp. unfold finished, write_inputSignalsToTrigger. rewrite Hp.
  eexists. split; [reflexivity|]. simpl. split_and!; try done.
  - apply list_lookup_insert_eq. by eapply lookup_lt_Some.
  - intros c Hne. by rewrite list_lookup_insert_ne.
Qed.

Lemma finished_frame_witness :
  exists st',
    finished 0 identity_ready = (Ret tt, st') /\
    inputSignalsToTrigger identity_ready !! 0%nat = Some 1%Z /\
    inputSignalsToTrigger st' !! 0%nat = Some (-1)%Z /\
    signalValues st' = signalValues identity_ready.
Proof.
  destruct (finished_frame 0 identity_ready 1%Z eq_refl)
    as (st' & Hrun & Hp & _ & Hv & _).
  exists st'. exact (conj Hrun (conj eq_refl (conj Hp Hv))).
Defined.

(** The loop of [reset] over the marks stops at the number of components:
    the mark of a signal from that index on is never cleared by [reset]
    itself. *)
Lemma reset_spares_marks circuit call i b :
  (NComponents circuit <= i)%nat ->
  (forall comp, comp ∈ components circuit ->
                preserves (marked i b) (call (fn comp))) ->
  preserves (marked i b) (reset circuit true call).
Proof.
  intros Hi Hcall. unfold reset. apply preserves_bind.
  - apply preserves_for_range. intros j Hj st HI.
    unfold marked in *. unfold_ops. split_cases; [|done].
    rewrite list_lookup_insert_ne by lia. done.
  - intros _. apply preserves_for_range. intros j _ st HI.
    unfold marked in *. unfold_ops. split_cases; try done.
    eapply Hcall; [by eapply list_elem_of_lookup_2|done].
Qed.

(** C5, where the code departs from it.  Scenario S2 in a sanity build:
    after the inputs are set and the component has run, all four signals
    are marked as assigned.  [reset] restores the counter and leaves the
    signal values, but its loop over the marks runs up to the number of
    components, which is 1, so that no mark is cleared; setting the first
    input again then fails as a second assignment. *)
Theorem reset_leaves_marks :
  let run := exec adder_circuit true 9 in
  let st1 := session adder_circuit true [(9%nat, adder_inputs)]
               (snd (Circom_CalcWit adder_circuit true 9 zeroed)) in
  let st2 := snd (reset adder_circuit true run st1) in
  signalValues st1 = [1; 50; 60; 9]%Z /\
  signalAssigned st1 = [true; true; true; true] /\
  inputSignalsToTrigger st1 = [-1]%Z /\
  fst (reset adder_circuit true run st1) = Ret tt /\
  signalValues st2 = [1; 50; 60; 9]%Z /\
  inputSignalsToTrigger st2 = [2]%Z /\
  signalAssigned st2 = [true; true; true; true] /\
  fst (setSignal adder_circuit true run 0 0 1 50%Z st2)
  = Throw (SignalAssignedTwice 1).
Proof. vm_compute. repeat split. Qed.

(** ** Signals that were never assigned *)

Lemma getSignal_release circuit cur c s st v :
  signalValues st !! s = Some v ->
  (forall w st', getSignal circuit false cur c s st = (Ret w, st') ->
                 w = v /\ st' = st) /\
  (forall comp, components circuit !! c = Some comp ->
     newThread comp = false \/ cur = c \/
     inputSignalsToTrigger st !! c = Some (-1)%Z ->
     getSignal circuit false cur c s st = (Ret v, st)).
Proof.
  intros Hv. split.
  - intros w st'. unfold_ops. split_cases; intros; simplify_eq; auto.
  - intros comp Hcomp Hnow. unfold_ops. rewrite Hcomp.
    destruct (newThread comp); simpl; [|by rewrite Hv].
    destruct (Nat.eqb_spec cur c) as [E|NE]; simpl; [by rewrite Hv|].
    destruct Hnow as [?|[?|Hp]]; [done|done|].
    rewrite Hp. simpl. by rewrite Hv.
Qed.

(** C9.  Construction gives every signal from 1 to [NSignals - 1] the value
    0, in a big integer of 256 bits.  In a build without the sanity checks,
    as long as neither the programs run nor the component functions call
    [setSignal] on such a signal, it still holds 0; a [getSignal] on it
    that returns, returns 0, and it does return 0 whenever it need not wait:
    the producing component has no thread of its own, or is the caller, or
    has finished. *)
Theorem unassigned_signal_reads_zero circuit fuel u progs s cur c :
  (1 <= s < NSignals circuit)%nat ->
  (forall comp, comp ∈ components circuit -> AllCalls (spares s) (fn comp)) ->
  Forall (fun fp => AllCalls (spares s) (snd fp)) progs ->
  (forall SANITY_CHECK,
     signalValues
       (snd (init_signals circuit SANITY_CHECK
               (allocated circuit SANITY_CHECK u))) !! s
     = Some (mpz_init2 256)) /\
  signalValues
    (session circuit false progs (snd (Circom_CalcWit circuit false fuel u)))
    !! s = Some 0%Z /\
  (forall v st',
     getSignal circuit false cur c s
       (session circuit false progs (snd (Circom_CalcWit circuit false fuel u)))
     = (Ret v, st') -> v = 0%Z) /\
  (forall comp,
     components circuit !! c = Some comp ->
     newThread comp = false \/ cur = c \/
     inputSignalsToTrigger
       (session circuit false progs (snd (Circom_CalcWit circuit false fuel u)))
       !! c = Some (-1)%Z ->
     getSignal circuit false cur c s
       (session circuit false progs (snd (Circom_CalcWit circuit false fuel u)))
     = (Ret 0%Z,
        session circuit false progs (snd (Circom_CalcWit circuit false fuel u)))).
Proof.
  intros Hs Hfns Hprogs.
  assert (forall S, exists st,
            init_signals circuit S (allocated circuit S u) = (Ret tt, st) /\
            signalValues st !! s = Some (mpz_init2 256)) as Hinit.
  { intros S. destruct (init_signals_spec circuit S u) as (st & Hrun & _ & Hz & _);
      [lia|]. exists st. auto. }
  assert (signalValues
    (session circuit false progs (snd (Circom_CalcWit circuit false fuel u)))
    !! s = Some 0%Z) as Hzero.
  { destruct (Hinit false) as (st & Hrun & Hz).
    rewrite (Circom_CalcWit_reset _ _ _ _ _ Hrun).
    apply (session_preserves _ _ (holds_value s (Some 0%Z)) (spares s));
      [|done|].
    - intros f p Hp. by apply exec_frame.
    - apply reset_frame; [|exact Hz].
      intros comp Hin. apply exec_frame; auto. }
  split.
  { intros S. destruct (Hinit S) as (st & -> & Hz). exact Hz. }
  split; [exact Hzero|].
  destruct (getSignal_release circuit cur c s _ _ Hzero) as [Hret Hnow].
  split; [|exact Hnow].
  intros v st' Hrun. by destruct (Hret v st' Hrun).
Qed.

Lemma unassigned_signal_reads_zero_witness :
  getSignal identity_circuit false 0 0 1
    (session identity_circuit false [(5%nat, Do (CFinished 0) (fun _ => Return))]
       (snd (Circom_CalcWit identity_circuit false 5 junk)))
  = (Ret 0%Z,
     session identity_circuit false [(5%nat, Do (CFinished 0) (fun _ => Return))]
       (snd (Circom_CalcWit identity_circuit false 5 junk))).
Proof.
  destruct (unassigned_signal_reads_zero identity_circuit 5 junk
              [(5%nat, Do (CFinished 0) (fun _ => Return))] 1 0 0)
    as (_ & _ & _ & Hnow).
  - simpl. lia.
  - intros comp Hin. apply list_elem_of_singleton in Hin. subst comp.
    simpl. auto.
  - repeat constructor.
  - apply (Hnow _ eq_refl). left. reflexivity.
Defined.

(** ** The waiting loops *)

Section WaitingRuns.

Variable circuit : Circom_Circuit.
Variable SANITY_CHECK : bool.
Variable NMUTEXES me : nat.
Variables cur cIdx sIdx : nat.

Lemma acquire_holds slot sh sh' :
  acquire me slot sh = Some sh' -> holds me slot sh' /\ calc sh' = calc sh.
Proof.
  unfold acquire, holds. intros H.
  destruct (mutexes sh !! slot) as [[owner|]|] eqn:E; simplify_eq/=.
  split; [|done]. apply list_lookup_insert_eq. by eapply lookup_lt_Some.
Qed.

Lemma gs_waited_later cfg h :
  gs_past_wait (fst cfg) = true ->
  gs_waited NMUTEXES me cIdx h -> gs_waited NMUTEXES me cIdx (cfg :: h).
Proof.
  intros Hpc (later & shT & earlier & -> & Hp & Hh & Hl).
  exists (cfg :: later), shT, earlier. split_and!; auto.
Qed.

Lemma gs_phase_later cfg h :
  gs_past_wait (fst cfg) = true -> gs_in_wait (fst cfg) = false ->
  gs_phase circuit NMUTEXES me cur cIdx h ->
  gs_phase circuit NMUTEXES me cur cIdx (cfg :: h).
Proof.
  unfold gs_phase. intros Hp Hw. destruct gs_must_wait.
  - by apply gs_waited_later.
  - intros H. by constructor.
Qed.

Lemma gs_phase_unlock sh sh' h :
  gs_phase circuit NMUTEXES me cur cIdx ((GS_unlock, sh) :: h) ->
  gs_phase circuit NMUTEXES me cur cIdx ((GS_unlock, sh') :: (GS_unlock, sh) :: h).
Proof.
  unfold gs_phase. destruct gs_must_wait.
  - by apply gs_waited_later.
  - intros H. by inversion H.
Qed.

Lemma gs_history_inv h :
  history me (gs_step circuit SANITY_CHECK NMUTEXES me cur cIdx sIdx) GS_entry h ->
  match h with
  | [] => False
  | (pc, sh) :: h' => gs_inv circuit NMUTEXES me cur cIdx sIdx pc sh h'
  end.
Proof.
  induction 1 as [sh|pc sh pc' sh' h Hh IH Hstep|pc sh sh' h Hh IH Hothers].
  - simpl. constructor.
  - destruct pc; simpl in Hstep, IH.
    + (* entry *)
      unfold gs_phase, gs_must_wait in *.
      destruct (components circuit !! cIdx) as [comp|] eqn:Ecomp; simplify_eq/=; [|done].
      destruct (newThread comp && negb (cur =? cIdx)%nat) eqn:Ew; simplify_eq/=.
      * unfold gs_must_wait. by rewrite Ecomp.
      * unfold gs_phase, gs_must_wait. rewrite Ecomp, Ew.
        repeat constructor.
        eapply Forall_impl; [exact IH|]. by intros [pc0 sh0] ->.
    + (* lock *)
      destruct (acquire me (cIdx mod NMUTEXES) sh) as [sh1|] eqn:Ea; simplify_eq/=.
      split; [done|]. by apply acquire_holds in Ea as [? _].
    + (* test *)
      destruct IH as [Hw Hholds].
      destruct (inputSignalsToTrigger (calc sh) !! cIdx) as [p|] eqn:Ep; simplify_eq/=; [|done].
      destruct (Z.eqb_spec p (-1)) as [->|NE]; simplify_eq/=; [|done].
      unfold gs_phase. rewrite Hw.
      exists [(GS_unlock, sh')], sh', h. split_and!; auto.
    + (* wait *)
      destruct (acquire me (cIdx mod NMUTEXES) sh) as [sh1|] eqn:Ea; simplify_eq/=.
      split; [done|]. by apply acquire_holds in Ea as [? _].
    + (* unlock *)
      simplify_eq/=. by apply gs_phase_later.
    + (* sanity *)
      destruct SANITY_CHECK.
      * destruct (signalAssigned (calc sh) !! sIdx) as [[|]|]; simplify_eq/=; try done.
        by apply gs_phase_later.
      * simplify_eq/=. by apply gs_phase_later.
    + (* copy *)
      destruct (signalValues (calc sh) !! sIdx) as [v|] eqn:Ev; simplify_eq/=; [|done].
      exists [], sh', h. split_and!; auto.
    + done.
    + done.
  - destruct pc; simpl in IH |- *.
    + constructor; auto.
    + done.
    + destruct IH as [Hw Hholds]. split; [done|]. by apply Hothers.
    + done.
    + by apply gs_phase_unlock.
    + by apply gs_phase_later.
    + by apply gs_phase_later.
    + destruct IH as (later & shC & earlier & -> & Hv & Hl & Hph).
      exists ((GS_return v, sh) :: later), shC, earlier. split_and!; auto.
    + done.
Qed.


Lemma join_step_calc pc sh pc' sh' :
  join_step circuit NMUTEXES me pc sh = Some (pc', sh') -> calc sh' = calc sh.
Proof.
  destruct pc; simpl; intros H; repeat case_match; simplify_eq/=; try done.
  all: by apply acquire_holds in H0 as [_ ?] || by apply acquire_holds in H1 as [_ ?].
Qed.

Lemma join_seen_later n cfg h :
  join_seen NMUTEXES me n h -> join_seen NMUTEXES me n (cfg :: h).
Proof.
  destruct n as [|n]; simpl; [done|].
  intros (later & shT & earlier & -> & Hp & Hh & Hs).
  exists (cfg :: later), shT, earlier. by split_and!.
Qed.

Lemma join_seen_drop n pc sh h :
  (forall j, pc = J_test j -> (n <= j)%nat) ->
  join_seen NMUTEXES me n ((pc, sh) :: h) -> join_seen NMUTEXES me n h.
Proof.
  destruct n as [|n]; simpl; [done|].
  intros Hpc (later & shT & earlier & Heq & Hp & Hh & Hs).
  destruct later as [|cfg later]; simplify_eq/=.
  - specialize (Hpc n eq_refl). lia.
  - exists later, shT, earlier. by split_and!.
Qed.

Lemma all_finished_step (pc pc' : join_pc) sh sh' h n :
  (finished_stays ((pc, sh) :: h) -> all_finished n sh) ->
  finished_stays ((pc', sh') :: (pc, sh) :: h) -> all_finished n sh'.
Proof.
  intros Hprev [Hkeep Hstays] c Hc. apply Hkeep. by apply Hprev.
Qed.

Local Arguments finished_stays : simpl never.

Lemma join_history_inv h :
  history me (join_step circuit NMUTEXES me) (J_loop 0) h ->
  match h with
  | [] => False
  | (pc, sh) :: h' => join_inv circuit NMUTEXES me pc sh h'
  end.
Proof.
  induction 1 as [sh|pc sh pc' sh' h Hh IH Hstep|pc sh sh' h Hh IH Hothers].
  - unfold join_inv. split_and!; [lia|done|]. intros _ c Hc. lia.
  - pose proof (join_step_calc _ _ _ _ Hstep) as Hcalc.
    destruct pc; simpl in Hstep; unfold join_inv in IH |- *.
    + (* loop *)
      destruct IH as (Hle & Hseen & Hfin).
      destruct (Nat.ltb_spec i (NComponents circuit)); simplify_eq/=.
      * split_and!; [done|by apply join_seen_later|by eapply all_finished_step].
      * assert (i = NComponents circuit) as -> by lia.
        split; [done|]. by eapply all_finished_step.
    + (* lock *)
      destruct IH as (Hlt & Hseen & Hfin).
      destruct (acquire me (i mod NMUTEXES) sh) as [sh1|] eqn:Ea; simplify_eq/=.
      split_and!; [done|by apply join_seen_later|by apply acquire_holds in Ea as [? _]
                  |by eapply all_finished_step].
    + (* test *)
      destruct IH as (Hlt & Hseen & Hholds & Hfin).
      destruct (inputSignalsToTrigger (calc sh) !! i) as [p|] eqn:Ep;
        simplify_eq/=; [|done].
      destruct (Z.eqb_spec p (-1)) as [->|NE]; simplify_eq/=.
      * split_and!; [done| |].
        -- exists [(J_unlock i, sh')], sh', h. split_and!; auto.
           eapply join_seen_drop; [|exact Hseen]. intros j [= ->]. lia.
        -- intros Hstays c Hc.
           destruct (decide (c = i)) as [->|].
           ++ done.
           ++ eapply all_finished_step; [exact Hfin|exact Hstays|lia].
      * split_and!; [done|by apply join_seen_later|by eapply all_finished_step].
    + (* wait *)
      destruct IH as (Hlt & Hseen & Hfin).
      destruct (acquire me (i mod NMUTEXES) sh) as [sh1|] eqn:Ea; simplify_eq/=.
      split_and!; [done|by apply join_seen_later|by apply acquire_holds in Ea as [? _]
                  |by eapply all_finished_step].
    + (* unlock *)
      destruct IH as (Hlt & Hseen & Hfin). simplify_eq/=.
      split_and!; [lia|by apply (join_seen_later (S i))|by eapply all_finished_step].
    + done.
    + done.
  - destruct pc; unfold join_inv in IH |- *.
    + destruct IH as (Hle & Hseen & Hfin).
      split_and!; [done|by apply join_seen_later|by eapply all_finished_step].
    + destruct IH as (Hle & Hseen & Hfin).
      split_and!; [done|by apply join_seen_later|by eapply all_finished_step].
    + destruct IH as (Hle & Hseen & Hholds & Hfin).
      split_and!; [done|by apply join_seen_later|by apply Hothers
                  |by eapply all_finished_step].
    + destruct IH as (Hle & Hseen & Hfin).
      split_and!; [done|by apply join_seen_later|by eapply all_finished_step].
    + destruct IH as (Hle & Hseen & Hfin).
      split_and!; [done|by apply (join_seen_later (S i))|by eapply all_finished_step].
    + destruct IH as (Hseen & Hfin).
      split; [by apply join_seen_later|by eapply all_finished_step].
    + done.
Qed.


Lemma gs_history_component h :
  history me (gs_step circuit SANITY_CHECK NMUTEXES me cur cIdx sIdx)
    GS_entry h ->
  match h with
  | [] => False
  | (GS_entry, _) :: _ | (GS_fail _, _) :: _ => True
  | _ :: _ => is_Some (components circuit !! cIdx)
  end.
Proof.
  induction 1 as [sh|pc sh pc' sh' h Hh IH Hstep|pc sh sh' h Hh IH Hothers].
  - done.
  - destruct pc; simpl in Hstep; repeat case_match; simplify_eq/=; eauto.
  - by destruct pc.
Qed.

End WaitingRuns.

(** *** Without interference

    Left alone with free mutexes, the step machines do what the operations
    [getSignal] and [join] do in one thread of control: they return the
    same value, fail the same way, or end up waiting. *)

Lemma steps_stuck {PC} (step : PC -> Shared -> option (PC * Shared)) n cfg :
  step (fst cfg) (snd cfg) = None -> steps step n cfg = cfg.
Proof. intros H. destruct n; simpl; [done|]. by rewrite H. Qed.

Lemma steps_add {PC} (step : PC -> Shared -> option (PC * Shared)) n :
  forall m cfg, steps step (n + m) cfg = steps step m (steps step n cfg).
Proof.
  induction n as [|n IH]; intros m cfg; simpl; [done|].
  destruct (step (fst cfg) (snd cfg)) eqn:E; [apply IH|].
  by rewrite steps_stuck.
Qed.

Section Quiet.

Variable circuit : Circom_Circuit.
Variable SANITY_CHECK : bool.
Variable NMUTEXES me : nat.

Lemma release_acquire slot sh sh' :
  mutexes sh !! slot = Some None ->
  acquire me slot sh = Some sh' ->
  release slot sh' = sh.
Proof.
  intros Hfree. unfold acquire. rewrite Hfree. intros [= <-].
  unfold release. destruct sh as [st ms]. simpl in *. f_equal.
  rewrite list_insert_insert_eq. by apply list_insert_id.
Qed.

Lemma acquire_free slot sh :
  mutexes sh !! slot = Some None ->
  acquire me slot sh
  = Some {| calc := calc sh; mutexes := <[slot:=Some me]> (mutexes sh) |}.
Proof. intros H. unfold acquire. by rewrite H. Qed.

Ltac run_quiet :=
  repeat (simpl; match goal with
                 | H : ?l = _ |- context [?l] => rewrite H
                 end).

Lemma getSignal_quiet cur cIdx sIdx sh :
  mutexes sh !! (cIdx mod NMUTEXES)%nat = Some None ->
  match getSignal circuit SANITY_CHECK cur cIdx sIdx (calc sh) with
  | (Ret v, _) =>
      exists n, steps (gs_step circuit SANITY_CHECK NMUTEXES me cur cIdx sIdx)
                  n (GS_entry, sh) = (GS_return v, sh)
  | (Blocked, _) =>
      exists n, steps (gs_step circuit SANITY_CHECK NMUTEXES me cur cIdx sIdx)
                  n (GS_entry, sh) = (GS_wait, sh)
  | (Throw e, _) =>
      exists n sh',
        steps (gs_step circuit SANITY_CHECK NMUTEXES me cur cIdx sIdx)
          n (GS_entry, sh) = (GS_fail e, sh') /\ calc sh' = calc sh
  | (OutOfFuel, _) => False
  end.
Proof.
  intros Hfree.
  pose proof (acquire_free _ _ Hfree) as Hacq.
  pose proof (release_acquire _ _ _ Hfree Hacq) as Hrel.
  unfold_ops. destruct SANITY_CHECK; split_cases.
  all: first [ by (exists 6%nat; run_quiet)
             | by (exists 3%nat; run_quiet)
             | by (eexists 1%nat, _; run_quiet)
             | by (eexists 2%nat, _; run_quiet)
             | by (eexists 3%nat, _; run_quiet)
             | by (eexists 5%nat, _; run_quiet)
             | by (eexists 6%nat, _; run_quiet) ].
Qed.

Lemma join_quiet_from count : forall i sh,
  (i + count = NComponents circuit)%nat ->
  (forall slot, (slot < NMUTEXES)%nat -> mutexes sh !! slot = Some None) ->
  (0 < NMUTEXES)%nat ->
  match for_range i count
          (fun i => let* p := read_inputSignalsToTrigger i in
                    if (p =? -1)%Z then ret tt else block) (calc sh) with
  | (Ret _, _) =>
      exists n, steps (join_step circuit NMUTEXES me) n (J_loop i, sh)
                = (J_return, sh)
  | (Blocked, _) =>
      exists n j, steps (join_step circuit NMUTEXES me) n (J_loop i, sh)
                  = (J_wait j, sh)
  | (Throw e, _) =>
      exists n sh',
        steps (join_step circuit NMUTEXES me) n (J_loop i, sh)
        = (J_fail e, sh') /\ calc sh' = calc sh
  | (OutOfFuel, _) => False
  end.
Proof.
  induction count as [|count IH]; intros i sh Hi Hfree Hpos.
  - simpl. exists 1%nat. simpl.
    destruct (Nat.ltb_spec i (NComponents circuit)); [lia|done].
  - assert (mutexes sh !! (i mod NMUTEXES)%nat = Some None) as Hslot.
    { apply Hfree. apply Nat.mod_upper_bound. lia. }
    pose proof (acquire_free _ _ Hslot) as Hacq.
    pose proof (release_acquire _ _ _ Hslot Hacq) as Hrel.
    assert ((i <? NComponents circuit)%nat = true) as Hlt
      by (apply Nat.ltb_lt; lia).
    simpl. unfold bind at 1. unfold bind at 1.
    unfold read_inputSignalsToTrigger at 1.
    destruct (inputSignalsToTrigger (calc sh) !! i) as [p|] eqn:Ep.
    2: { eexists 3%nat, _. by run_quiet. }
    destruct (p =? -1)%Z eqn:Ep1.
    2: { exists 3%nat, i. by run_quiet. }
    unfold ret at 1.
    specialize (IH (S i) sh ltac:(lia) Hfree Hpos).
    assert (steps (join_step circuit NMUTEXES me) 4 (J_loop i, sh)
            = (J_loop (S i), sh)) as Hiter by (by run_quiet).
    destruct (for_range (S i) count _ (calc sh)) as [[[]| | |] st'].
    + destruct IH as [n Hn]. exists (4 + n)%nat. by rewrite steps_add, Hiter.
    + destruct IH as (n & sh' & Hn & Hc). exists (4 + n)%nat, sh'.
      by rewrite steps_add, Hiter.
    + destruct IH as (n & j & Hn). exists (4 + n)%nat, j.
      by rewrite steps_add, Hiter.
    + done.
Qed.

Lemma join_quiet sh :
  (forall slot, (slot < NMUTEXES)%nat -> mutexes sh !! slot = Some None) ->
  (0 < NMUTEXES)%nat ->
  match join circuit (calc sh) with
  | (Ret _, _) =>
      exists n, steps (join_step circuit NMUTEXES me) n (J_loop 0, sh)
                = (J_return, sh)
  | (Blocked, _) =>
      exists n j, steps (join_step circuit NMUTEXES me) n (J_loop 0, sh)
                  = (J_wait j, sh)
  | (Throw e, _) =>
      exists n sh',
        steps (join_step circuit NMUTEXES me) n (J_loop 0, sh)
        = (J_fail e, sh') /\ calc sh' = calc sh
  | (OutOfFuel, _) => False
  end.
Proof. intros Hfree Hpos. by apply join_quiet_from. Qed.

End Quiet.

(** C7.  Every run of [getSignal(currentComponentIdx, cIdx, sIdx)] that
    returns [v], whatever the other threads do in between.  The value is
    the content of [signalValues[sIdx]] at the moment of the copy, the last
    step before the return.  When the producing component has a thread of
    its own and is not the caller, the run went through the waiting loop
    and left it on a test that found the counter of [cIdx] at [-1], made
    under the mutex of slot [cIdx mod NMUTEXES], before the copy and with
    no further wait after it.  Otherwise the run never came near the
    mutex or the loop. *)
Theorem getSignal_waits_for_producer circuit SANITY_CHECK NMUTEXES me
    cur cIdx sIdx v sh h :
  history me (gs_step circuit SANITY_CHECK NMUTEXES me cur cIdx sIdx)
    GS_entry ((GS_return v, sh) :: h) ->
  exists comp later shC earlier,
    components circuit !! cIdx = Some comp /\
    h = later ++ (GS_copy, shC) :: earlier /\
    Forall (fun cfg => fst cfg = GS_return v) later /\
    signalValues (calc shC) !! sIdx = Some v /\
    if newThread comp && negb (cur =? cIdx)%nat
    then gs_waited NMUTEXES me cIdx ((GS_copy, shC) :: earlier)
    else gs_never_waited ((GS_copy, shC) :: earlier).
Proof.
  intros Hh.
  destruct (gs_history_component _ _ _ _ _ _ _ _ Hh) as [comp Hcomp].
  destruct (gs_history_inv _ _ _ _ _ _ _ _ Hh)
    as (later & shC & earlier & Hsplit & Hv & Hlater & Hphase).
  exists comp, later, shC, earlier. split_and!; auto.
  unfold gs_phase, gs_must_wait in Hphase. by rewrite Hcomp in Hphase.
Qed.

Lemma getSignal_waits_for_producer_witness :
  exists comp later shC earlier,
    components collision_circuit !! 1%nat = Some comp /\
    tail reader_history = later ++ (GS_copy, shC) :: earlier /\
    Forall (fun cfg => fst cfg = GS_return 10%Z) later /\
    signalValues (calc shC) !! 2%nat = Some 10%Z /\
    if newThread comp && negb (0 =? 1)%nat
    then gs_waited 2 7 1 ((GS_copy, shC) :: earlier)
    else gs_never_waited ((GS_copy, shC) :: earlier).
Proof.
  apply (getSignal_waits_for_producer collision_circuit false 2 7 0 1 2
           10%Z (unlocked collision_produced) (tail reader_history)).
  unfold reader_history, tail.
  repeat first
    [ apply history_start
    | eapply history_own; [|vm_compute; reflexivity]
    | eapply history_others; [|intros slot; split; intros H; exact H] ].
Defined.

(** C8.  Every run of [join] that returns, whatever the other threads do
    in between.  It has seen the components finished one after the other
    in the order of their indices: for each [i] a test made under the mutex
    of slot [i mod NMUTEXES] found the counter of [i] at [-1], after the
    tests for the components before [i].  If in the meantime no finished
    component was taken back (no [reset]), every counter is [-1] when
    [join] returns.  And no step of [join] changes the calculator. *)
Theorem join_waits_in_order circuit NMUTEXES me sh h :
  history me (join_step circuit NMUTEXES me) (J_loop 0)
    ((J_return, sh) :: h) ->
  join_seen NMUTEXES me (NComponents circuit) h /\
  (finished_stays ((J_return, sh) :: h) ->
   forall c, (c < NComponents circuit)%nat ->
             inputSignalsToTrigger (calc sh) !! c = Some (-1)%Z) /\
  (forall pc sh1 pc' sh1',
     join_step circuit NMUTEXES me pc sh1 = Some (pc', sh1') ->
     calc sh1' = calc sh1).
Proof.
  intros Hh.
  destruct (join_history_inv _ _ _ _ Hh) as [Hseen Hfin].
  split_and!; [exact Hseen|exact Hfin|].
  intros pc sh1 pc' sh1'. apply join_step_calc.
Qed.

Lemma join_waits_in_order_witness :
  join_seen 2 7 2 (tail joiner_history) /\
  forall c, (c < 2)%nat ->
            inputSignalsToTrigger collision_done !! c = Some (-1)%Z.
Proof.
  destruct (join_waits_in_order collision_circuit 2 7
              (unlocked collision_done) (tail joiner_history))
    as (Hseen & Hfin & _).
  - unfold joiner_history, tail.
    repeat first
      [ apply history_start
      | eapply history_own; [|vm_compute; reflexivity]
      | eapply history_others; [|intros slot; split; intros H; exact H] ].
  - split; [exact Hseen|]. apply Hfin.
    unfold joiner_history, tail, finished_stays.
    repeat split; intros [|[|c]]; vm_compute; congruence.
Defined.

(** * Further properties *)

(** ** Symbol lookup *)

Lemma getSignalOffset_found circuit cIdx key :
  getSignalOffset circuit cIdx key
  = let? ent := found_entry circuit cIdx key in
    if negb (entry_type_eqb (type ent) _typeSignal) then Err InvalidType
    else Ok (offset ent).
Proof.
  unfold getSignalOffset, found_entry, result_bind.
  repeat case_match; simplify_eq; done.
Qed.

Lemma getSignalSizes_found circuit cIdx key :
  getSignalSizes circuit cIdx key
  = let? ent := found_entry circuit cIdx key in
    if negb (entry_type_eqb (type ent) _typeSignal) then Err InvalidType
    else Ok (sizes ent).
Proof.
  unfold getSignalSizes, found_entry, result_bind.
  repeat case_match; simplify_eq; done.
Qed.

Lemma getSubComponentOffset_found circuit cIdx key :
  getSubComponentOffset circuit cIdx key
  = let? ent := found_entry circuit cIdx key in
    if negb (entry_type_eqb (type ent) _typeComponent) then Err InvalidType
    else Ok (offset ent).
Proof.
  unfold getSubComponentOffset, found_entry, result_bind.
  repeat case_match; simplify_eq; done.
Qed.

Lemma getSubComponentSizes_found circuit cIdx key :
  getSubComponentSizes circuit cIdx key
  = let? ent := found_entry circuit cIdx key in
    if negb (entry_type_eqb (type ent) _typeComponent) then Err InvalidType
    else Ok (sizes ent).
Proof.
  unfold getSubComponentSizes, found_entry, result_bind.
  repeat case_match; simplify_eq; done.
Qed.

(** What each result of the probe loop says about the table. *)
Lemma probe_result n : forall tbl h key,
  (length tbl <= h + n)%nat ->
  match probe n tbl h key with
  | Ok j =>
      (h <= j)%nat /\
      exists slot, tbl !! j = Some slot /\ hash slot = key /\
        forall i, (h <= i < j)%nat ->
          exists s, tbl !! i = Some s /\ hash s <> key /\ hash s <> 0%Z
  | Err (HashNotFound k) =>
      k = key /\
      exists j slot, (h <= j)%nat /\ tbl !! j = Some slot /\
        hash slot = 0%Z /\ hash slot <> key /\
        forall i, (h <= i < j)%nat ->
          exists s, tbl !! i = Some s /\ hash s <> key /\ hash s <> 0%Z
  | Err (OutOfBounds a i) =>
      a = A_hashTable /\ i = (h `max` length tbl)%nat /\
      forall i s, (h <= i)%nat -> tbl !! i = Some s ->
                  hash s <> key /\ hash s <> 0%Z
  | Err _ => False
  end.
Proof.
  induction n as [|n IH]; intros tbl h key Hlen.
  - assert (tbl !! h = None) as Hh by (apply lookup_ge_None; lia).
    simpl. rewrite Hh. split; [done|]. split; [lia|].
    intros i s Hi Hs. apply lookup_lt_Some in Hs. lia.
  - simpl. destruct (tbl !! h) as [e|] eqn:He.
    + destruct (Z.eqb_spec key (hash e)) as [Hk|Hk].
      { split; [done|]. exists e. split_and!; auto; intros i Hi; lia. }
      destruct (Z.eqb_spec (hash e) 0) as [H0|H0].
      { split; [done|]. exists h, e.
        split_and!; auto; try congruence; intros i Hi; lia. }
      pose proof (lookup_lt_Some _ _ _ He) as Hlt.
      specialize (IH tbl (S h) key ltac:(lia)).
      assert (forall j,
        (forall i, (S h <= i < j)%nat ->
           exists s, tbl !! i = Some s /\ hash s <> key /\ hash s <> 0%Z) ->
        forall i, (h <= i < j)%nat ->
           exists s, tbl !! i = Some s /\ hash s <> key /\ hash s <> 0%Z)
        as Hext.
      { intros j Hbef i Hi. destruct (decide (i = h)) as [->|].
        - exists e. auto.
        - apply Hbef. lia. }
      destruct (probe n tbl (S h) key) as [j|[k| | | | |a i]]; try done.
      * destruct IH as (Hj & slot & Hs & Hk' & Hbef).
        split; [lia|]. exists slot. split_and!; [done|done|by apply Hext].
      * destruct IH as (-> & j & slot & Hj & Hs & Hz & Hne & Hbef).
        split; [done|]. exists j, slot.
        split_and!; [lia|done|done|done|by apply Hext].
      * destruct IH as (-> & -> & Hnone). split; [done|]. split; [lia|].
        intros i s Hi Hs. destruct (decide (i = h)) as [->|].
        -- rewrite He in Hs. injection Hs as <-. auto.
        -- apply (Hnone i s); [lia|done].
    + split; [done|]. split; [apply lookup_ge_None in He; lia|].
      intros i s Hi Hs. apply lookup_ge_None in He.
      apply lookup_lt_Some in Hs. lia.
Qed.

(** The record a lookup finds, or why it finds none. *)
Lemma found_entry_result circuit cIdx key :
  match found_entry circuit cIdx key with
  | Ok ent => resolves circuit cIdx key ent
  | Err e =>
      (e = OutOfBounds A_components cIdx /\ components circuit !! cIdx = None)
      \/
      exists comp,
        components circuit !! cIdx = Some comp /\
        ((e = HashNotFound key /\ key <> 0%Z /\
          exists j slot, probe_stops_at (hashTable comp) key j slot /\
                         hash slot = 0%Z)
         \/
         (e = OutOfBounds A_hashTable
                (probe_start key `max` length (hashTable comp)) /\
          ~ probe_can_stop (hashTable comp) key)
         \/
         (exists j slot, probe_stops_at (hashTable comp) key j slot /\
                         hash slot = key /\
                         e = OutOfBounds A_entries (pos slot) /\
                         entries comp !! pos slot = None))
  end.
Proof.
  unfold found_entry, at_index.
  destruct (components circuit !! cIdx) as [comp|] eqn:Ecomp; simpl; [|by left].
  pose proof (probe_result (length (hashTable comp)) (hashTable comp)
                (probe_start key) key ltac:(lia)) as Hres.
  destruct (probe _ _ _ _) as [j|e]; simpl.
  - destruct Hres as (Hj & slot & Hs & Hk & Hbef). rewrite Hs. simpl.
    assert (probe_stops_at (hashTable comp) key j slot) as Hstop
      by (split_and!; auto).
    destruct (entries comp !! pos slot) as [ent|] eqn:Eent.
    + exists comp, j, slot. by split_and!.
    + right. exists comp. split; [done|]. right. right.
      exists j, slot. by split_and!.
  - right. exists comp. split; [done|].
    destruct e as [k| | | | |a i]; try done.
    + destruct Hres as (-> & j & slot & Hj & Hs & Hz & Hne & Hbef).
      left. split_and!; [done|congruence|].
      exists j, slot. split; [|done]. split_and!; auto.
    + destruct Hres as (-> & -> & Hnone). right. left. split; [done|].
      intros (j & slot & Hj & Hs & Hstop).
      destruct (Hnone j slot Hj Hs). tauto.
Qed.

Lemma resolves_found circuit cIdx key ent :
  resolves circuit cIdx key ent -> found_entry circuit cIdx key = Ok ent.
Proof.
  intros (comp & j & slot & Hcomp & Hstop & Hk & Hent).
  unfold found_entry, at_index. rewrite Hcomp. simpl.
  rewrite (probe_stops _ _ _ _ Hstop).
  destruct (Z.eqb_spec key (hash slot)); [|congruence]. simpl.
  destruct Hstop as (_ & -> & _). simpl. by rewrite Hent.
Qed.

(** X1.  A lookup succeeds exactly when the name resolves to a record of
    the type the accessor serves, and it answers with that record's field:
    the offset or the sizes of a signal record for the signal accessors, of
    a component record for the sub-component accessors. *)
Theorem lookup_answers_iff_resolves circuit cIdx key :
  (forall z, getSignalOffset circuit cIdx key = Ok z <->
     exists ent, resolves circuit cIdx key ent /\
                 type ent = _typeSignal /\ offset ent = z) /\
  (forall sz, getSignalSizes circuit cIdx key = Ok sz <->
     exists ent, resolves circuit cIdx key ent /\
                 type ent = _typeSignal /\ sizes ent = sz) /\
  (forall z, getSubComponentOffset circuit cIdx key = Ok z <->
     exists ent, resolves circuit cIdx key ent /\
                 type ent = _typeComponent /\ offset ent = z) /\
  (forall sz, getSubComponentSizes circuit cIdx key = Ok sz <->
     exists ent, resolves circuit cIdx key ent /\
                 type ent = _typeComponent /\ sizes ent = sz).
Proof.
  rewrite getSignalOffset_found, getSignalSizes_found,
    getSubComponentOffset_found, getSubComponentSizes_found.
  pose proof (found_entry_result circuit cIdx key) as Hres.
  split_and!; intros x; (split;
    [ destruct (found_entry circuit cIdx key) as [ent|e]; simpl; [|done];
      destruct (type ent) eqn:Ety; simpl; intros [= <-]; eauto
    | intros (ent & Hent & Hty & <-);
      rewrite (resolves_found _ _ _ _ Hent); simpl; by rewrite Hty ]).
Qed.

(** X2.  A name is a signal or a sub-component, never both: when a signal
    accessor answers, both sub-component accessors raise the invalid-type
    error, and the other way round; and the offset and the sizes accessor
    of one kind succeed together and fail with the same error. *)
Theorem lookup_kinds_exclusive circuit cIdx key :
  (forall z, getSignalOffset circuit cIdx key = Ok z ->
     getSubComponentOffset circuit cIdx key = Err InvalidType /\
     getSubComponentSizes circuit cIdx key = Err InvalidType) /\
  (forall z, getSubComponentOffset circuit cIdx key = Ok z ->
     getSignalOffset circuit cIdx key = Err InvalidType /\
     getSignalSizes circuit cIdx key = Err InvalidType) /\
  error_of (getSignalSizes circuit cIdx key)
  = error_of (getSignalOffset circuit cIdx key) /\
  error_of (getSubComponentSizes circuit cIdx key)
  = error_of (getSubComponentOffset circuit cIdx key).
Proof.
  rewrite getSignalOffset_found, getSignalSizes_found,
    getSubComponentOffset_found, getSubComponentSizes_found.
  destruct (found_entry circuit cIdx key) as [ent|e]; simpl; [|done].
  destruct (type ent); simpl; split_and!; done.
Qed.

(** X3.  Why a lookup fails, for each of the four accessors.  The component
    index is out of range; or the probe reached a free slot, which is
    reported as not-found with the key and happens for nonzero keys only;
    or no slot from the start on holds the key or is free, and the probe
    left the table; or the slot found gives a position outside [entries];
    or the name resolves to a record of the other kind. *)
Theorem lookup_failures circuit cIdx key e :
  error_of (getSignalOffset circuit cIdx key) = Some e \/
  error_of (getSignalSizes circuit cIdx key) = Some e \/
  error_of (getSubComponentOffset circuit cIdx key) = Some e \/
  error_of (getSubComponentSizes circuit cIdx key) = Some e ->
  (e = OutOfBounds A_components cIdx /\ components circuit !! cIdx = None)
  \/
  exists comp,
    components circuit !! cIdx = Some comp /\
    ((e = HashNotFound key /\ key <> 0%Z /\
      exists j slot, probe_stops_at (hashTable comp) key j slot /\
                     hash slot = 0%Z)
     \/
     (e = OutOfBounds A_hashTable
            (probe_start key `max` length (hashTable comp)) /\
      ~ probe_can_stop (hashTable comp) key)
     \/
     (exists j slot, probe_stops_at (hashTable comp) key j slot /\
                     hash slot = key /\
                     e = OutOfBounds A_entries (pos slot) /\
                     entries comp !! pos slot = None)
     \/
     (e = InvalidType /\ exists ent, resolves circuit cIdx key ent)).
Proof.
  rewrite getSignalOffset_found, getSignalSizes_found,
    getSubComponentOffset_found, getSubComponentSizes_found.
  pose proof (found_entry_result circuit cIdx key) as Hres.
  destruct (found_entry circuit cIdx key) as [ent|e'] eqn:Efound; simpl.
  - intros Herr. right.
    destruct Hres as (comp & j & slot & Hcomp & Hstop & Hk & Hent).
    exists comp. split; [done|]. do 3 right.
    assert (e = InvalidType) as ->.
    { destruct (type ent); simpl in Herr;
        destruct Herr as [H|[H|[H|H]]]; by simplify_eq. }
    split; [done|]. exists ent, comp, j, slot. by split_and!.
  - intros Herr. assert (e' = e) as -> by (by destruct Herr as [H|[H|[H|H]]]; simplify_eq).
    destruct Hres as [?|(comp & Hcomp & Hcases)]; [by left|].
    right. exists comp. split; [done|]. tauto.
Qed.

Lemma lookup_failures_witness :
  (HashNotFound 769 = OutOfBounds A_components 0 /\
   components collision_circuit !! 0%nat = None)
  \/
  exists comp,
    components collision_circuit !! 0%nat = Some comp /\
    ((HashNotFound 769 = HashNotFound 769 /\ 769%Z <> 0%Z /\
      exists j slot, probe_stops_at (hashTable comp) 769 j slot /\
                     hash slot = 0%Z)
     \/
     (HashNotFound 769
      = OutOfBounds A_hashTable
          (probe_start 769 `max` length (hashTable comp)) /\
      ~ probe_can_stop (hashTable comp) 769)
     \/
     (exists j slot, probe_stops_at (hashTable comp) 769 j slot /\
                     hash slot = 769%Z /\
                     HashNotFound 769 = OutOfBounds A_entries (pos slot) /\
                     entries comp !! pos slot = None)
     \/
     (HashNotFound 769 = InvalidType /\
      exists ent, resolves collision_circuit 0 769 ent)).
Proof.
  apply (lookup_failures collision_circuit 0 769 (HashNotFound 769)).
  left. reflexivity.
Defined.

(** ** The barrier in one thread of control *)

Lemma join_loop n : forall lo st,
  match for_range lo n
          (fun i => let* p := read_inputSignalsToTrigger i in
                    if (p =? -1)%Z then ret tt else block) st with
  | (Ret _, st') =>
      st' = st /\
      forall c, (lo <= c < lo + n)%nat ->
                inputSignalsToTrigger st !! c = Some (-1)%Z
  | (Blocked, st') =>
      st' = st /\
      exists c p, (lo <= c < lo + n)%nat /\
        inputSignalsToTrigger st !! c = Some p /\ p <> (-1)%Z /\
        forall c', (lo <= c' < c)%nat ->
                   inputSignalsToTrigger st !! c' = Some (-1)%Z
  | (Throw e, st') =>
      st' = st /\
      exists c, (lo <= c < lo + n)%nat /\
        e = OutOfBounds A_inputSignalsToTrigger c /\
        inputSignalsToTrigger st !! c = None /\
        forall c', (lo <= c' < c)%nat ->
                   inputSignalsToTrigger st !! c' = Some (-1)%Z
  | (OutOfFuel, _) => False
  end.
Proof.
  induction n as [|n IH]; intros lo st; simpl.
  - split; [done|]. intros c Hc. lia.
  - unfold bind at 1. unfold bind at 1. unfold read_inputSignalsToTrigger at 1.
    destruct (inputSignalsToTrigger st !! lo) as [p|] eqn:Ep.
    2: { split; [done|]. exists lo. split_and!; auto with lia. }
    destruct (Z.eqb_spec p (-1)) as [->|NE].
    2: { split; [done|]. exists lo, p. split_and!; auto with lia. }
    unfold ret at 1. specialize (IH (S lo) st).
    destruct (for_range (S lo) n _ st) as [[ [] | e | | ] st'].
    + destruct IH as [-> Hall]. split; [done|]. intros c Hc.
      destruct (decide (c = lo)) as [->|]; [done|]. apply Hall. lia.
    + destruct IH as (-> & c & Hc & -> & Hnone & Hbefore).
      split; [done|]. exists c. split_and!; auto with lia.
      intros c' Hc'. destruct (decide (c' = lo)) as [->|]; [done|].
      apply Hbefore. lia.
    + destruct IH as (-> & c & q & Hc & Hq & Hne & Hbefore).
      split; [done|]. exists c, q. split_and!; auto with lia.
      intros c' Hc'. destruct (decide (c' = lo)) as [->|]; [done|].
      apply Hbefore. lia.
    + done.
Qed.

(** X4.  [join] in one thread of control: it never changes the calculator;
    it returns exactly when every counter from 0 to [NComponents - 1] is
    [-1]; it waits exactly when the first counter that is not [-1] holds
    another value; and it never fails except by reading a counter that does
    not exist. *)
Theorem join_returns_iff_all_finished circuit st :
  snd (join circuit st) = st /\
  (fst (join circuit st) = Ret tt <->
   forall c, (c < NComponents circuit)%nat ->
             inputSignalsToTrigger st !! c = Some (-1)%Z) /\
  (fst (join circuit st) = Blocked <->
   exists c p, (c < NComponents circuit)%nat /\
     inputSignalsToTrigger st !! c = Some p /\ p <> (-1)%Z /\
     forall c', (c' < c)%nat ->
                inputSignalsToTrigger st !! c' = Some (-1)%Z) /\
  (forall e, fst (join circuit st) = Throw e ->
   exists c, (c < NComponents circuit)%nat /\
     e = OutOfBounds A_inputSignalsToTrigger c /\
     (length (inputSignalsToTrigger st) <= c)%nat).
Proof.
  unfold join.
  pose proof (join_loop (NComponents circuit) 0 st) as Hloop.
  destruct (for_range 0 (NComponents circuit) _ st) as [[ [] | e | | ] st'];
    simpl in *.
  - destruct Hloop as [-> Hall]. split_and!; [done| | |done].
    + split; [|done]. intros _ c Hc. apply Hall. lia.
    + split; [done|]. intros (c & p & Hc & Hp & Hne & _).
      rewrite Hall in Hp by lia. congruence.
  - destruct Hloop as (-> & c & Hc & -> & Hnone & Hbefore).
    split_and!; [done| | |].
    + split; [done|]. intros Hall. rewrite Hall in Hnone by lia. done.
    + split; [done|]. intros (c' & p & Hc' & Hp & Hne & Hbef').
      destruct (lt_eq_lt_dec c c') as [[Hlt| ->]|Hgt].
      * rewrite Hbef' in Hnone by lia. done.
      * congruence.
      * rewrite Hbefore in Hp by lia. congruence.
    + intros e' [= <-]. exists c. split_and!; [lia|done|].
      by apply lookup_ge_None.
  - destruct Hloop as (-> & c & p & Hc & Hp & Hne & Hbefore).
    split_and!; [done| | |done].
    + split; [done|]. intros Hall. rewrite Hall in Hp by lia. congruence.
    + split; [|done]. intros _. exists c, p. split_and!; auto with lia.
  - done.
Qed.

(** ** Calls that only read *)

(** X5.  The four accessors, [getSignal], [checkConstraint] and [join]
    leave the calculator as it is, whether they return, fail or wait; so
    the same call made again ends the same way. *)
Theorem reading_calls_change_nothing circuit SANITY_CHECK call c st :
  reads_only c ->
  snd (perform circuit SANITY_CHECK call c st) = st /\
  perform circuit SANITY_CHECK call c
    (snd (perform circuit SANITY_CHECK call c st))
  = perform circuit SANITY_CHECK call c st.
Proof.
  intros Hc.
  assert (snd (perform circuit SANITY_CHECK call c st) = st) as Hsame.
  { destruct c; try done; simpl.
    1-6: by unfold_ops; split_cases.
    pose proof (join_loop (NComponents circuit) 0 st) as Hloop.
    unfold join, bind.
    destruct (for_range 0 (NComponents circuit) _ st) as [[ [] | e | | ] st'];
      simpl; try done; by destruct Hloop as [-> _]. }
  split; [done|]. by rewrite Hsame.
Qed.

Lemma reading_calls_change_nothing_witness :
  snd (perform collision_circuit false (exec collision_circuit false 5)
         (CGetSignal 0 1 2) collision_started) = collision_started /\
  perform collision_circuit false (exec collision_circuit false 5)
    (CGetSignal 0 1 2)
    (snd (perform collision_circuit false (exec collision_circuit false 5)
            (CGetSignal 0 1 2) collision_started))
  = perform collision_circuit false (exec collision_circuit false 5)
      (CGetSignal 0 1 2) collision_started.
Proof.
  apply (reading_calls_change_nothing collision_circuit false
           (exec collision_circuit false 5) (CGetSignal 0 1 2)
           collision_started).
  exact I.
Defined.

(** ** The sanity checks *)

Lemma getSignal_sanity circuit cur c s st :
  (forall w, fst (getSignal circuit true cur c s st) = Ret w ->
             assigned_holds s w st) /\
  (forall (b : bool) comp,
     signalAssigned st !! s = Some b ->
     components circuit !! c = Some comp ->
     newThread comp = false \/ cur = c \/
     inputSignalsToTrigger st !! c = Some (-1)%Z ->
     getSignal circuit true cur c s st
     = if b
       then match signalValues st !! s with
            | Some w => (Ret w, st)
            | None => (Throw (OutOfBounds A_signalValues s), st)
            end
       else (Throw (NotAssignedSignal s), st)).
Proof.
  split.
  - intros w. unfold assigned_holds. unfold_ops.
    split_cases; intros; by simplify_eq.
  - intros b comp Hb Hcomp Hnow. unfold_ops. rewrite Hcomp.
    assert ((if newThread comp && negb (cur =? c)%nat
             then match inputSignalsToTrigger st !! c with
                  | Some p => (if (p =? -1)%Z then Ret tt else Blocked, st)
                  | None =>
                      (Throw (OutOfBounds A_inputSignalsToTrigger c), st)
                  end
             else (Ret tt, st)) = (Ret tt, st)) as Hpass.
    { destruct (newThread comp); simpl; [|done].
      destruct (Nat.eqb_spec cur c); simpl; [done|].
      destruct Hnow as [?|[?|Hp]]; [done|done|]. by rewrite Hp. }
    destruct (newThread comp && negb (cur =? c)%nat).
    + destruct (inputSignalsToTrigger st !! c) as [p|]; [|done].
      destruct (p =? -1)%Z; [|done]. rewrite Hb. by destruct b.
    + rewrite Hb. by destruct b.
Qed.

(** X6.  What the sanity checks reject, and how.  [setSignal] on a signal
    already marked fails as a second assignment before it writes anything.
    [getSignal] on a signal not marked never returns a value, and fails as
    a read of an unassigned signal as soon as it need not wait; a value
    that [getSignal] returns is the value of a marked signal. *)
Theorem sanity_checks_reject circuit call cur c s v st :
  (signalAssigned st !! s = Some true ->
   setSignal circuit true call cur c s v st
   = (Throw (SignalAssignedTwice s), st)) /\
  (signalAssigned st !! s = Some false ->
   (forall w, fst (getSignal circuit true cur c s st) <> Ret w) /\
   forall comp,
     components circuit !! c = Some comp ->
     newThread comp = false \/ cur = c \/
     inputSignalsToTrigger st !! c = Some (-1)%Z ->
     getSignal circuit true cur c s st = (Throw (NotAssignedSignal s), st)) /\
  (forall w, fst (getSignal circuit true cur c s st) = Ret w ->
             assigned_holds s w st).
Proof.
  destruct (getSignal_sanity circuit cur c s st) as [Hret Hnow].
  split_and!.
  - intros Ha. unfold_ops. by rewrite Ha.
  - intros Ha. split.
    + intros w Hw. destruct (Hret w Hw) as [_ Ha']. congruence.
    + intros comp Hcomp Hpass. by rewrite (Hnow false comp).
  - exact Hret.
Qed.

(** *** Single assignment *)

Section SingleAssignment.

Variable circuit : Circom_Circuit.
Variable s : nat.
Variable v : BigInt.
Variable call : Prog -> M unit.
Hypothesis call_keeps :
  forall comp, comp ∈ components circuit ->
               preserves (assigned_holds s v) (call (fn comp)).

Ltac keep_leaf :=
  unfold assigned_holds in *; simpl in *;
  rewrite ?list_lookup_insert_ne by congruence; intuition congruence.

Lemma triggerComponent_keeps c :
  preserves (assigned_holds s v) (triggerComponent circuit call c).
Proof.
  intros st HI. unfold_ops. split_cases; try done.
  eapply call_keeps; [by eapply list_elem_of_lookup_2|done].
Qed.

Lemma setSignal_keeps cur c sIdx w :
  preserves (assigned_holds s v) (setSignal circuit true call cur c sIdx w).
Proof.
  intros st HI. unfold_ops.
  destruct (decide (sIdx = s)) as [->|Hne].
  - destruct HI as [Hv Ha]. rewrite Ha. simpl. by split.
  - split_cases; try done; try keep_leaf.
    all: eapply call_keeps; [by eapply list_elem_of_lookup_2|keep_leaf].
Qed.

Lemma perform_keeps c :
  not_reset c ->
  preserves (assigned_holds s v) (perform circuit true call c).
Proof.
  intros Hc. destruct c; simpl in *; try done;
    (apply preserves_bind; [|by intros ? st]).
  1-4: by intros st HI; unfold_ops; split_cases.
  - intros st HI. unfold_ops. by split_cases.
  - apply setSignal_keeps.
  - intros st HI. unfold_ops. by split_cases.
  - intros st HI. unfold_ops. split_cases; keep_leaf.
  - apply triggerComponent_keeps.
  - unfold join. apply preserves_for_range. intros i _ st HI.
    unfold_ops. by split_cases.
Qed.

(** A [setSignal] that returns has stored its value and marked the
    signal. *)
Lemma setSignal_marks cur c w st :
  match setSignal circuit true call cur c s w st with
  | (Ret _, st1) => v = w -> assigned_holds s v st1
  | _ => True
  end.
Proof.
  unfold_ops. split_cases; try done.
  all: try (intros ->; split; simpl;
            apply list_lookup_insert_eq; by eapply lookup_lt_Some).
  intros ->.
  match goal with
  | H : call ?p ?st1 = (_, ?st2) |- _ =>
      assert (st2 = snd (call p st1)) as -> by (by rewrite H)
  end.
  eapply call_keeps; [by eapply list_elem_of_lookup_2|].
  split; simpl; apply list_lookup_insert_eq; by eapply lookup_lt_Some.
Qed.

End SingleAssignment.

Lemma exec_keeps circuit s v fuel p :
  (forall comp, comp ∈ components circuit -> AllCalls not_reset (fn comp)) ->
  AllCalls not_reset p ->
  preserves (assigned_holds s v) (exec circuit true fuel p).
Proof.
  intros Hfns Hp. apply (exec_preserves _ _ _ not_reset); auto.
  intros call Hcall c Hc. by apply perform_keeps.
Qed.

(** X7.  Single assignment in a sanity build: as long as neither the
    programs run nor the component functions call [reset], a signal that
    is marked as assigned keeps its mark and its value, whatever is run. *)
Theorem assigned_signal_keeps_value circuit progs s v st :
  (forall comp, comp ∈ components circuit -> AllCalls not_reset (fn comp)) ->
  Forall (fun fp => AllCalls not_reset (snd fp)) progs ->
  assigned_holds s v st ->
  assigned_holds s v (session circuit true progs st).
Proof.
  intros Hfns Hprogs.
  apply (session_preserves _ _ _ not_reset); [|done].
  intros fuel p Hp. by apply exec_keeps.
Qed.

Lemma assigned_signal_keeps_value_witness :
  assigned_holds 1 50%Z
    (session adder_circuit true
       [(9%nat, Do (CSetSignal 0 0 2 60%Z) (fun _ => Return))]
       (session adder_circuit true
          [(9%nat, Do (CSetSignal 0 0 1 50%Z) (fun _ => Return))]
          (snd (Circom_CalcWit adder_circuit true 9 zeroed)))).
Proof.
  apply assigned_signal_keeps_value.
  - intros comp Hin. apply list_elem_of_singleton in Hin. subst comp.
    simpl. repeat (split; [exact I|intros ?]). exact I.
  - repeat constructor.
  - split; reflexivity.
Defined.

(** X8.  Write, then read, in a sanity build without calls of [reset]: a
    [setSignal] that returns has stored its value for good.  Whatever the
    component it may have fired did, and whatever is run afterwards, a
    [getSignal] on the signal that returns, returns that value, and it does
    return it as soon as it need not wait. *)
Theorem setSignal_then_getSignal circuit fuel progs cur c s v st st1
    cur' c' :
  (forall comp, comp ∈ components circuit -> AllCalls not_reset (fn comp)) ->
  Forall (fun fp => AllCalls not_reset (snd fp)) progs ->
  setSignal circuit true (exec circuit true fuel) cur c s v st
  = (Ret tt, st1) ->
  assigned_holds s v (session circuit true progs st1) /\
  (forall w, fst (getSignal circuit true cur' c' s
                    (session circuit true progs st1)) = Ret w -> w = v) /\
  (forall comp,
     components circuit !! c' = Some comp ->
     newThread comp = false \/ cur' = c' \/
     inputSignalsToTrigger (session circuit true progs st1) !! c'
     = Some (-1)%Z ->
     getSignal circuit true cur' c' s (session circuit true progs st1)
     = (Ret v, session circuit true progs st1)).
Proof.
  intros Hfns Hprogs Hrun.
  assert (assigned_holds s v st1) as Hst1.
  { pose proof (setSignal_marks circuit s v (exec circuit true fuel)
                  ltac:(intros comp Hin; apply exec_keeps; auto)
                  cur c v st) as Hm.
    rewrite Hrun in Hm. by apply Hm. }
  assert (assigned_holds s v (session circuit true progs st1)) as Hst2.
  { apply (session_preserves _ _ _ not_reset); [|done|done].
    intros f p Hp. by apply exec_keeps. }
  destruct (getSignal_sanity circuit cur' c' s
              (session circuit true progs st1)) as [Hret Hnow].
  split_and!; [done| |].
  - intros w Hw. destruct (Hret w Hw) as [Hv _].
    destruct Hst2 as [Hv2 _]. congruence.
  - intros comp Hcomp Hpass. destruct Hst2 as [Hv2 Ha2].
    rewrite (Hnow true comp Ha2 Hcomp Hpass). by rewrite Hv2.
Qed.

Lemma setSignal_then_getSignal_witness :
  getSignal adder_circuit true 0 0 1
    (session adder_circuit true
       [(9%nat, Do (CSetSignal 0 0 2 60%Z) (fun _ => Return))]
       (snd (setSignal adder_circuit true (exec adder_circuit true 9)
               0 0 1 50%Z (snd (Circom_CalcWit adder_circuit true 9 zeroed)))))
  = (Ret 50%Z,
     session adder_circuit true
       [(9%nat, Do (CSetSignal 0 0 2 60%Z) (fun _ => Return))]
       (snd (setSignal adder_circuit true (exec adder_circuit true 9)
               0 0 1 50%Z (snd (Circom_CalcWit adder_circuit true 9 zeroed))))).
Proof.
  destruct (setSignal_then_getSignal adder_circuit 9
              [(9%nat, Do (CSetSignal 0 0 2 60%Z) (fun _ => Return))]
              0 0 1 50%Z
              (snd (Circom_CalcWit adder_circuit true 9 zeroed))
              (snd (setSignal adder_circuit true (exec adder_circuit true 9)
                      0 0 1 50%Z
                      (snd (Circom_CalcWit adder_circuit true 9 zeroed))))
              0 0) as (_ & _ & Hnow).
  - intros comp Hin. apply list_elem_of_singleton in Hin. subst comp.
    simpl. repeat (split; [exact I|intros ?]). exact I.
  - repeat constructor.
  - vm_compute. reflexivity.
  - apply (Hnow _ eq_refl). left. reflexivity.
Defined.

(** ** Threads *)

Section Starts.

Variable circuit : Circom_Circuit.
Variable SANITY_CHECK : bool.
Variable c n : nat.
Variable call : Prog -> M unit.

Lemma starts_spawn d st :
  count_occ Nat.eq_dec (threads st ++ [d]) c
  = (starts c st + if decide (d = c) then 1 else 0)%nat.
Proof.
  unfold starts. rewrite count_occ_app. simpl.
  destruct (Nat.eq_dec d c), (decide (d = c)); done.
Qed.

Ltac starts_leaf :=
  unfold started_once, spent, starts in *; simpl in *;
  repeat match goal with
         | H : exists _, _ |- _ => destruct H as (? & ? & ?)
         end;
  rewrite ?starts_spawn; unfold starts;
  repeat match goal with
         | |- context [<[?i:=_]> _ !! c] =>
             destruct (decide (i = c)) as [->|];
             [rewrite list_lookup_insert_eq by (by eapply lookup_lt_Some)
             |rewrite list_lookup_insert_ne by done]
         | H : context [<[?i:=_]> _ !! ?i] |- _ =>
             rewrite list_lookup_insert_eq in H by (by eapply lookup_lt_Some)
         end;
  repeat case_decide; simplify_eq;
  eexists; (split; [done|]); lia.

Hypothesis call_once :
  forall comp, comp ∈ components circuit ->
               preserves (started_once c n) (call (fn comp)).
Hypothesis call_spent :
  forall comp, comp ∈ components circuit ->
               preserves (spent c n) (call (fn comp)).

Lemma setSignal_once cur cIdx sIdx v :
  preserves (started_once c n)
    (setSignal circuit SANITY_CHECK call cur cIdx sIdx v).
Proof.
  intros st HI. unfold_ops. split_cases; try done.
  all: try (eapply call_once; [by eapply list_elem_of_lookup_2|]).
  all: starts_leaf.
Qed.

Lemma setSignal_spent cur cIdx sIdx v :
  preserves (spent c n)
    (setSignal circuit SANITY_CHECK call cur cIdx sIdx v).
Proof.
  intros st HI. unfold_ops. split_cases; try done.
  all: try (eapply call_spent; [by eapply list_elem_of_lookup_2|]).
  all: starts_leaf.
Qed.

Lemma perform_once k :
  counting_call k ->
  preserves (started_once c n) (perform circuit SANITY_CHECK call k).
Proof.
  intros Hk. destruct k; simpl in *; try done;
    (apply preserves_bind; [|by intros ? st]).
  1-4: by intros st HI; unfold_ops; split_cases.
  - intros st HI. unfold_ops. by split_cases.
  - apply setSignal_once.
  - intros st HI. unfold_ops. by split_cases.
  - intros st HI. unfold_ops. split_cases; try done. starts_leaf.
  - unfold join. apply preserves_for_range. intros i _ st HI.
    unfold_ops. by split_cases.
Qed.

Lemma perform_spent k :
  counting_call k ->
  preserves (spent c n) (perform circuit SANITY_CHECK call k).
Proof.
  intros Hk. destruct k; simpl in *; try done;
    (apply preserves_bind; [|by intros ? st]).
  1-4: by intros st HI; unfold_ops; split_cases.
  - intros st HI. unfold_ops. by split_cases.
  - apply setSignal_spent.
  - intros st HI. unfold_ops. by split_cases.
  - intros st HI. unfold_ops. split_cases; try done. starts_leaf.
  - unfold join. apply preserves_for_range. intros i _ st HI.
    unfold_ops. by split_cases.
Qed.

End Starts.

Lemma exec_once circuit SANITY_CHECK c n fuel p :
  (forall comp, comp ∈ components circuit ->
                AllCalls counting_call (fn comp)) ->
  AllCalls counting_call p ->
  preserves (started_once c n) (exec circuit SANITY_CHECK fuel p).
Proof.
  intros Hfns Hp. apply (exec_preserves _ _ _ counting_call); auto.
  intros call Hcall k Hk. by apply perform_once.
Qed.

Lemma exec_spent circuit SANITY_CHECK c n fuel p :
  (forall comp, comp ∈ components circuit ->
                AllCalls counting_call (fn comp)) ->
  AllCalls counting_call p ->
  preserves (spent c n) (exec circuit SANITY_CHECK fuel p).
Proof.
  intros Hfns Hp. apply (exec_preserves _ _ _ counting_call); auto.
  intros call Hcall k Hk. by apply perform_spent.
Qed.



(** ** [reset] and the constructor *)

Lemma fill_marks b n : forall lo st,
  (lo + n <= length (signalAssigned st))%nat ->
  exists st',
    for_range lo n (fun i => write_signalAssigned i b) st = (Ret tt, st') /\
    (forall i, signalAssigned st' !! i
               = if decide (lo <= i < lo + n)%nat then Some b
                 else signalAssigned st !! i) /\
    signalValues st' = signalValues st /\
    inputSignalsToTrigger st' = inputSignalsToTrigger st /\
    threads st' = threads st /\ journal st' = journal st.
Proof.
  induction n as [|n IH]; intros lo st Hlen; simpl.
  - exists st. repeat split; auto. intros i. case_decide; [lia|done].
  - destruct (lookup_lt_is_Some_2 (signalAssigned st) lo) as [old Hold];
      [lia|].
    unfold bind at 1. unfold write_signalAssigned at 1. rewrite Hold.
    match goal with |- context [for_range _ _ _ ?s] => set (st1 := s) end.
    destruct (IH (S lo) st1) as (st' & Hrun & Hval & Ha & Hp & Ht & Hj).
    { simpl. rewrite length_insert. lia. }
    exists st'. split; [exact Hrun|]. repeat split; auto.
    intros i. rewrite Hval. simpl.
    destruct (decide (i = lo)) as [->|NE].
    + rewrite list_lookup_insert_eq by lia. repeat case_decide; auto; lia.
    + rewrite list_lookup_insert_ne by lia. repeat case_decide; auto; lia.
Qed.

Lemma fired_cons circuit lo n :
  fired circuit lo (S n)
  = (if fires circuit lo then [lo] else []) ++ fired circuit (S lo) n.
Proof.
  unfold fired. simpl. rewrite filter_cons.
  destruct (fires circuit lo); by case_decide.
Qed.

(** The loop of [reset] over the counters, when the components it fires
    all have a thread of their own. *)
Lemma restore_counters circuit call n : forall lo st,
  (lo + n <= NComponents circuit)%nat ->
  (lo + n <= length (components circuit))%nat ->
  (lo + n <= length (inputSignalsToTrigger st))%nat ->
  inputless_on_threads circuit ->
  exists st',
    for_range lo n
      (fun i =>
         let* comp := read_component circuit i in
         write_inputSignalsToTrigger ByReset i (Z.of_nat (inputSignals comp)) ;;
         let* p := read_inputSignalsToTrigger i in
         if (p =? 0)%Z then triggerComponent circuit call i else ret tt) st
    = (Ret tt, st') /\
    signalValues st' = signalValues st /\
    signalAssigned st' = signalAssigned st /\
    (forall i, inputSignalsToTrigger st' !! i
               = if decide (lo <= i < lo + n)%nat
                 then (fun comp => Z.of_nat (inputSignals comp))
                        <$> components circuit !! i
                 else inputSignalsToTrigger st !! i) /\
    threads st' = threads st ++ fired circuit lo n.
Proof.
  induction n as [|n IH]; intros lo st HN Hcomps Hlen Hthreads.
  - exists st. simpl. split_and!; auto.
    + intros i. case_decide; [lia|done].
    + unfold fired. simpl. by rewrite app_nil_r.
  - destruct (lookup_lt_is_Some_2 (components circuit) lo) as [comp Hcomp];
      [lia|].
    destruct (lookup_lt_is_Some_2 (inputSignalsToTrigger st) lo)
      as [old Hold]; [lia|].
    assert (exists st1,
      (let* comp := read_component circuit lo in
       write_inputSignalsToTrigger ByReset lo (Z.of_nat (inputSignals comp)) ;;
       let* p := read_inputSignalsToTrigger lo in
       if (p =? 0)%Z then triggerComponent circuit call lo else ret tt) st
      = (Ret tt, st1) /\
      signalValues st1 = signalValues st /\
      signalAssigned st1 = signalAssigned st /\
      inputSignalsToTrigger st1
      = <[lo:=Z.of_nat (inputSignals comp)]> (inputSignalsToTrigger st) /\
      threads st1
      = threads st ++ (if fires circuit lo then [lo] else []))
      as (st1 & Hrun1 & Hv1 & Ha1 & Hp1 & Ht1).
    { unfold_ops. rewrite Hcomp. simpl. rewrite Hold. simpl.
      rewrite list_lookup_insert_eq by lia. unfold fires. rewrite Hcomp.
      destruct (Z.eqb_spec (Z.of_nat (inputSignals comp)) 0) as [Hz|Hz].
      - assert (inputSignals comp = 0%nat) as Hzero by lia.
        simpl.
        rewrite (Hthreads lo comp ltac:(lia) Hcomp Hzero). rewrite Hzero.
        eexists. split; [reflexivity|]. by split_and!.
      - destruct (Nat.eqb_spec (inputSignals comp) 0) as [Hzero|_]; [lia|].
        eexists. split; [reflexivity|]. simpl. split_and!; auto.
        by rewrite app_nil_r. }
    destruct (IH (S lo) st1) as (st' & Hrun & Hv & Ha & Hp & Ht); auto.
    { lia. } { lia. } { rewrite Hp1, length_insert. lia. }
    exists st'. simpl. unfold bind at 1. 
    change (for_range (S lo) n _) with
      (for_range (S lo) n
         (fun i =>
            let* comp := read_component circuit i in
            write_inputSignalsToTrigger ByReset i
              (Z.of_nat (inputSignals comp)) ;;
            let* p := read_inputSignalsToTrigger i in
            if (p =? 0)%Z then triggerComponent circuit call i else ret tt)).
    rewrite Hrun1. split; [exact Hrun|]. split_and!.
    + congruence.
    + congruence.
    + intros i. rewrite Hp, Hp1.
      destruct (decide (i = lo)) as [->|NE].
      * rewrite list_lookup_insert_eq by lia. rewrite Hcomp. simpl.
        repeat case_decide; auto; lia.
      * rewrite list_lookup_insert_ne by lia. repeat case_decide; auto; lia.
    + rewrite Ht, Ht1, fired_cons. by rewrite app_assoc.
Qed.

Lemma for_range_app body a : forall lo b st,
  for_range lo (a + b) body st
  = (for_range lo a body ;; for_range (lo + a) b body) st.
Proof.
  induction a as [|a IH]; intros lo b st; simpl.
  - unfold bind, ret. by rewrite Nat.add_0_r.
  - unfold bind. destruct (body lo st) as [[ [] | e | | ] st1]; try done.
    rewrite IH. unfold bind.
    by replace (S lo + a)%nat with (lo + S a)%nat by lia.
Qed.

(** The loop of [reset] over the marks. *)
Lemma clear_marks circuit SANITY_CHECK st :
  (SANITY_CHECK = true ->
   (NComponents circuit <= 1 `max` length (signalAssigned st))%nat) ->
  exists st',
    (if SANITY_CHECK
     then for_range 1 (NComponents circuit - 1)
            (fun i => write_signalAssigned i false)
     else ret tt) st = (Ret tt, st') /\
    (forall i, signalAssigned st' !! i
               = if SANITY_CHECK && bool_decide (1 <= i < NComponents circuit)%nat
                 then Some false else signalAssigned st !! i) /\
    signalValues st' = signalValues st /\
    inputSignalsToTrigger st' = inputSignalsToTrigger st /\
    threads st' = threads st /\ journal st' = journal st.
Proof.
  intros Hlen. destruct SANITY_CHECK; simpl.
  2: { exists st. by split_and!. }
  specialize (Hlen eq_refl).
  destruct (le_lt_dec (NComponents circuit) 1) as [Hsmall|Hbig].
  - replace (NComponents circuit - 1)%nat with 0%nat by lia. simpl.
    exists st. split_and!; auto. intros i. case_bool_decide; [lia|done].
  - destruct (fill_marks false (NComponents circuit - 1) 1 st)
      as (st' & Hrun & Hmarks & Hrest); [lia|].
    exists st'. split; [exact Hrun|]. split; [|exact Hrest].
    intros i. rewrite Hmarks.
    case_decide; case_bool_decide; auto; lia.
Qed.

(** [reset], when every component it fires has a thread of its own. *)
Lemma reset_restores_counters_aux circuit SANITY_CHECK call st :
  (NComponents circuit <= length (components circuit))%nat ->
  (NComponents circuit <= length (inputSignalsToTrigger st))%nat ->
  (SANITY_CHECK = true ->
   (NComponents circuit <= 1 `max` length (signalAssigned st))%nat) ->
  inputless_on_threads circuit ->
  exists st',
    reset circuit SANITY_CHECK call st = (Ret tt, st') /\
    signalValues st' = signalValues st /\
    (forall i comp,
       (i < NComponents circuit)%nat ->
       components circuit !! i = Some comp ->
       inputSignalsToTrigger st' !! i = Some (Z.of_nat (inputSignals comp))) /\
    (forall i, (NComponents circuit <= i)%nat ->
               inputSignalsToTrigger st' !! i = inputSignalsToTrigger st !! i) /\
    threads st' = threads st ++ fired circuit 0 (NComponents circuit) /\
    (forall i, signalAssigned st' !! i
               = if SANITY_CHECK && bool_decide (1 <= i < NComponents circuit)%nat
                 then Some false else signalAssigned st !! i).
Proof.
  intros Hcomps Hlen Hmarks Hthreads.
  destruct (clear_marks circuit SANITY_CHECK st Hmarks)
    as (st1 & Hrun1 & Ha1 & Hv1 & Hp1 & Ht1 & _).
  destruct (restore_counters circuit call (NComponents circuit) 0 st1)
    as (st' & Hrun & Hv & Ha & Hp & Ht); auto.
  { by rewrite Hp1. }
  exists st'. split.
  { unfold reset, bind at 1. by rewrite Hrun1. }
  split_and!.
  - congruence.
  - intros i comp Hi Hcomp. rewrite Hp. case_decide; [|lia].
    by rewrite Hcomp.
  - intros i Hi. rewrite Hp, Hp1. case_decide; [lia|done].
  - by rewrite Ht, Ht1.
  - intros i. by rewrite Ha, Ha1.
Qed.

(** X10.  What [reset] does when every component it fires has a thread of
    its own.  With the components, the counters and, in a sanity build, the
    marks in range, it returns; the counter of every component holds the
    number of its inputs; the components without input, and no other, are
    started, in the order of their indices; the signal values are left as
    they are; and the marks are cleared for the indices 1 to
    [NComponents - 1] and left as they are elsewhere. *)
Theorem reset_restores_counters circuit SANITY_CHECK call st :
  (NComponents circuit <= length (components circuit))%nat ->
  (NComponents circuit <= length (inputSignalsToTrigger st))%nat ->
  (SANITY_CHECK = true ->
   (NComponents circuit <= 1 `max` length (signalAssigned st))%nat) ->
  inputless_on_threads circuit ->
  exists st',
    reset circuit SANITY_CHECK call st = (Ret tt, st') /\
    signalValues st' = signalValues st /\
    (forall i comp,
       (i < NComponents circuit)%nat ->
       components circuit !! i = Some comp ->
       inputSignalsToTrigger st' !! i = Some (Z.of_nat (inputSignals comp))) /\
    (forall i, (NComponents circuit <= i)%nat ->
               inputSignalsToTrigger st' !! i = inputSignalsToTrigger st !! i) /\
    threads st' = threads st ++ fired circuit 0 (NComponents circuit) /\
    (forall i, signalAssigned st' !! i
               = if SANITY_CHECK && bool_decide (1 <= i < NComponents circuit)%nat
                 then Some false else signalAssigned st !! i).
Proof. apply reset_restores_counters_aux. Qed.

Lemma reset_restores_counters_witness :
  exists st',
    reset collision_circuit false (exec collision_circuit false 5)
      collision_done = (Ret tt, st') /\
    signalValues st' = signalValues collision_done /\
    inputSignalsToTrigger st' !! 0%nat = Some 1%Z /\
    inputSignalsToTrigger st' !! 1%nat = Some 0%Z /\
    threads st' = threads collision_done ++ [1%nat].
Proof.
  destruct (reset_restores_counters collision_circuit false
              (exec collision_circuit false 5) collision_done)
    as (st' & Hrun & Hv & Hp & _ & Ht & _).
  - simpl. lia.
  - vm_compute. lia.
  - discriminate.
  - intros i comp Hi Hcomp Hzero.
    destruct i as [|[|i]]; simpl in *; [| |lia].
    + injection Hcomp as <-. simpl in Hzero. discriminate.
    + by injection Hcomp as <-.
  - exists st'. split_and!; [exact Hrun|exact Hv| | |exact Ht].
    + apply (Hp 0%nat collision_component); [simpl; lia|reflexivity].
    + apply (Hp 1%nat producer_component); [simpl; lia|reflexivity].
Defined.

(** X11.  In a sanity build with more components than signals, [reset]
    runs off the marks: it accesses [signalAssigned] at the index that is
    its length, and stops there, before any counter is restored and
    without touching the signal values or starting a thread. *)
Theorem reset_runs_off_the_marks circuit call st :
  (1 <= length (signalAssigned st) < NComponents circuit)%nat ->
  exists st',
    reset circuit true call st
    = (Throw (OutOfBounds A_signalAssigned (length (signalAssigned st))), st')
    /\
    inputSignalsToTrigger st' = inputSignalsToTrigger st /\
    signalValues st' = signalValues st /\
    threads st' = threads st.
Proof.
  intros Hlen. set (L := length (signalAssigned st)) in *.
  destruct (fill_marks false (L - 1) 1 st)
    as (st1 & Hrun1 & Ha1 & Hv1 & Hp1 & Ht1 & _); [lia|].
  assert (signalAssigned st1 !! L = None) as Hout.
  { rewrite Ha1. case_decide; [lia|]. apply lookup_ge_None. lia. }
  exists st1. split; [|by split_and!].
  unfold reset, bind at 1.
  replace (NComponents circuit - 1)%nat
    with ((L - 1) + S (NComponents circuit - 1 - L))%nat by lia.
  rewrite for_range_app. unfold bind at 1. rewrite Hrun1.
  replace (1 + (L - 1))%nat with L by lia. simpl.
  unfold bind at 1. unfold write_signalAssigned at 1. by rewrite Hout.
Qed.

Lemma reset_runs_off_the_marks_witness :
  exists st',
    reset collision_circuit true (exec collision_circuit true 5)
      {| signalValues := [1%Z]; signalAssigned := [true];
         inputSignalsToTrigger := [5%Z; 5%Z]; threads := [];
         journal := [] |}
    = (Throw (OutOfBounds A_signalAssigned 1), st') /\
    inputSignalsToTrigger st' = [5%Z; 5%Z] /\
    signalValues st' = [1%Z] /\
    threads st' = [].
Proof.
  apply (reset_runs_off_the_marks collision_circuit
           (exec collision_circuit true 5)
           {| signalValues := [1%Z]; signalAssigned := [true];
              inputSignalsToTrigger := [5%Z; 5%Z]; threads := [];
              journal := [] |}).
  simpl. lia.
Defined.

Lemma init_signals_state circuit SANITY_CHECK u :
  (0 < NSignals circuit)%nat ->
  exists st,
    init_signals circuit SANITY_CHECK (allocated circuit SANITY_CHECK u)
    = (Ret tt, st) /\
    signalValues st
    = mpz_init_set_ui 1 :: replicate (NSignals circuit - 1) (mpz_init2 256) /\
    signalAssigned st
    = (if SANITY_CHECK
       then <[0%nat:=true]> (map (u_assigned u) (seq 0 (NSignals circuit)))
       else []) /\
    inputSignalsToTrigger st
    = map (u_counters u) (seq 0 (NComponents circuit)) /\
    threads st = [] /\ journal st = [].
Proof.
  intros Hpos. unfold init_signals.
  set (st0 := allocated circuit SANITY_CHECK u).
  assert (length (signalValues st0) = NSignals circuit) as Hlen
    by (simpl; by rewrite length_map, length_seq).
  assert (exists st1,
    (if SANITY_CHECK then write_signalAssigned 0 true else ret tt) st0
    = (Ret tt, st1) /\ signalValues st1 = signalValues st0 /\
    signalAssigned st1
    = (if SANITY_CHECK
       then <[0%nat:=true]> (map (u_assigned u) (seq 0 (NSignals circuit)))
       else []) /\
    inputSignalsToTrigger st1 = inputSignalsToTrigger st0 /\
    threads st1 = [] /\ journal st1 = [])
    as (st1 & Hrun1 & Hv1 & Ha1 & Hp1 & Ht1 & Hj1).
  { subst st0. destruct SANITY_CHECK.
    - unfold write_signalAssigned.
      destruct (lookup_lt_is_Some_2
                  (signalAssigned (allocated circuit true u)) 0) as [b Hb].
      { simpl. rewrite length_map, length_seq. lia. }
      rewrite Hb. eexists. split; [reflexivity|]. by split_and!.
    - eexists. split; [reflexivity|]. by split_and!. }
  unfold bind at 1. rewrite Hrun1.
  destruct (lookup_lt_is_Some_2 (signalValues st1) 0) as [old Hold];
    [rewrite Hv1; lia|].
  unfold bind at 1. unfold write_signalValue at 1. rewrite Hold.
  match goal with |- context [for_range _ _ _ ?s] => set (st2 := s) end.
  destruct (fill_signals (mpz_init2 256) (NSignals circuit - 1) 1 st2)
    as (st & Hrun & Hval & Ha & Hp & Ht & Hj).
  { simpl. rewrite length_insert, Hv1. lia. }
  exists st. split; [exact Hrun|].
  split_and!; [|by rewrite Ha|by rewrite Hp|by rewrite Ht|by rewrite Hj].
  apply list_eq. intros i. rewrite Hval.
  destruct i as [|i].
  - rewrite decide_False by lia. simpl.
    apply list_lookup_insert_eq. rewrite Hv1. lia.
  - destruct (decide (1 <= S i < 1 + (NSignals circuit - 1))%nat).
    + symmetry. simpl. apply lookup_replicate_2. lia.
    + transitivity (@None BigInt).
      * apply lookup_ge_None. subst st2. simpl.
        rewrite length_insert, Hv1, Hlen. lia.
      * symmetry. simpl. apply lookup_replicate_None. lia.
Qed.

(** X12.  What the constructor builds when every component without input
    has a thread of its own.  Signal 0 holds 1 and every other signal 0;
    the counter of every component holds the number of its inputs; the
    components without input, and no other, are started, in the order of
    their indices; none of this depends on what the fresh memory held.  In
    a sanity build signal 0 is marked and the marks of the indices 1 to
    [NComponents - 1] are cleared, while the marks from [NComponents] on are
    what the fresh memory held. *)
Theorem construction_initialises circuit SANITY_CHECK fuel u :
  (0 < NSignals circuit)%nat ->
  (NComponents circuit <= length (components circuit))%nat ->
  (SANITY_CHECK = true -> (NComponents circuit <= NSignals circuit)%nat) ->
  inputless_on_threads circuit ->
  exists st,
    Circom_CalcWit circuit SANITY_CHECK fuel u = (Ret tt, st) /\
    signalValues st = 1%Z :: replicate (NSignals circuit - 1) 0%Z /\
    (forall i comp,
       (i < NComponents circuit)%nat ->
       components circuit !! i = Some comp ->
       inputSignalsToTrigger st !! i = Some (Z.of_nat (inputSignals comp))) /\
    (forall i, (NComponents circuit <= i)%nat ->
               inputSignalsToTrigger st !! i = None) /\
    threads st = fired circuit 0 (NComponents circuit) /\
    (SANITY_CHECK = true ->
     signalAssigned st !! 0%nat = Some true /\
     (forall i, (1 <= i < NComponents circuit)%nat ->
                signalAssigned st !! i = Some false) /\
     (forall i, (1 `max` NComponents circuit <= i < NSignals circuit)%nat ->
                signalAssigned st !! i = Some (u_assigned u i))).
Proof.
  intros Hpos Hcomps Hfit Hthreads.
  destruct (init_signals_state circuit SANITY_CHECK u Hpos)
    as (st0 & Hinit & Hv0 & Ha0 & Hp0 & Ht0 & _).
  destruct (reset_restores_counters_aux circuit SANITY_CHECK
              (exec circuit SANITY_CHECK fuel) st0)
    as (st & Hrun & Hv & Hp & Hrest & Ht & Ha); auto.
  { rewrite Hp0, length_map, length_seq. lia. }
  { intros ->. rewrite Ha0, length_insert, length_map, length_seq.
    specialize (Hfit eq_refl). lia. }
  exists st. split.
  { unfold Circom_CalcWit, bind at 1. by rewrite Hinit. }
  split_and!.
  - by rewrite Hv, Hv0.
  - exact Hp.
  - intros i Hi. rewrite Hrest, Hp0 by done.
    apply lookup_ge_None. rewrite length_map, length_seq. lia.
  - by rewrite Ht, Ht0.
  - intros ->. rewrite Ha0 in Ha. split_and!.
    + rewrite Ha. simpl. apply list_lookup_insert_eq.
      rewrite length_map, length_seq. lia.
    + intros i Hi. rewrite Ha. simpl. by rewrite bool_decide_eq_true_2.
    + intros i Hi. rewrite Ha. simpl.
      rewrite bool_decide_eq_false_2 by lia.
      rewrite list_lookup_insert_ne by lia.
      rewrite list_lookup_fmap, lookup_seq_lt by lia. done.
Qed.

Lemma construction_initialises_witness :
  exists st,
    Circom_CalcWit collision_circuit true 5 junk = (Ret tt, st) /\
    signalValues st = [1; 0; 0; 0]%Z /\
    threads st = [1%nat] /\
    signalAssigned st !! 0%nat = Some true /\
    signalAssigned st !! 3%nat = Some (u_assigned junk 3).
Proof.
  destruct (construction_initialises collision_circuit true 5 junk)
    as (st & Hrun & Hv & _ & _ & Ht & Ha).
  - simpl. lia.
  - simpl. lia.
  - intros _. simpl. lia.
  - intros i comp Hi Hcomp Hzero.
    destruct i as [|[|i]]; simpl in *; [| |lia].
    + injection Hcomp as <-. simpl in Hzero. discriminate.
    + by injection Hcomp as <-.
  - destruct (Ha eq_refl) as (Ha0 & _ & Hrest).
    exists st. split_and!; [exact Hrun|exact Hv|exact Ht|exact Ha0|].
    apply Hrest. simpl. lia.
Defined.



(** ** [finished] and the readers *)

(** X14.  [finished] lets the readers through: once [finished(cIdx)] has
    run, no [getSignal] on a signal of [cIdx] waits, whoever calls it, and
    if [join] still waits, it waits for another component. *)
Theorem finished_lets_readers_through circuit SANITY_CHECK cIdx st p :
  inputSignalsToTrigger st !! cIdx = Some p ->
  (forall cur sIdx,
     fst (getSignal circuit SANITY_CHECK cur cIdx sIdx (snd (finished cIdx st)))
     <> Blocked) /\
  (fst (join circuit (snd (finished cIdx st))) = Blocked ->
   exists c q,
     c <> cIdx /\ (c < NComponents circuit)%nat /\
     inputSignalsToTrigger (snd (finished cIdx st)) !! c = Some q /\
     q <> (-1)%Z).
Proof.
  intros Hp.
  assert (inputSignalsToTrigger (snd (finished cIdx st)) !! cIdx
          = Some (-1)%Z) as Hdone.
  { unfold finished, write_inputSignalsToTrigger. rewrite Hp. simpl.
    apply list_lookup_insert_eq. by eapply lookup_lt_Some. }
  set (st' := snd (finished cIdx st)) in *. split.
  - intros cur sIdx. unfold_ops. split_cases; done.
  - unfold join.
    pose proof (join_loop (NComponents circuit) 0 st') as Hloop.
    destruct (for_range 0 (NComponents circuit) _ st')
      as [[ [] | e | | ] st'']; simpl; try done.
    intros _. destruct Hloop as (_ & c & q & Hc & Hq & Hne & _).
    exists c, q. split_and!; [|lia|done|done].
    intros ->. congruence.
Qed.

Lemma finished_lets_readers_through_witness :
  fst (getSignal collision_circuit false 0 1 2
         (snd (finished 1 collision_started))) <> Blocked.
Proof.
  destruct (finished_lets_readers_through collision_circuit false 1
              collision_started 0%Z eq_refl) as [Hread _].
  apply Hread.
Defined.

(** ** Lock discipline of the waiting loops *)

Section Locks.

Variable circuit : Circom_Circuit.
Variable SANITY_CHECK : bool.
Variable NMUTEXES me : nat.

Lemma acquire_only slot sh sh' :
  (forall slot', ~ holds me slot' sh) ->
  acquire me slot sh = Some sh' ->
  forall slot', holds me slot' sh' <-> slot' = slot.
Proof.
  unfold acquire, holds. intros Hfree Hacq slot'.
  destruct (mutexes sh !! slot) as [[owner|]|] eqn:E; simplify_eq/=.
  destruct (decide (slot' = slot)) as [->|NE].
  - rewrite list_lookup_insert_eq by (by eapply lookup_lt_Some). done.
  - rewrite list_lookup_insert_ne by done. split; [|done].
    intros H. by destruct (Hfree slot').
Qed.

Lemma release_none slot sh :
  (forall slot', holds me slot' sh <-> slot' = slot) ->
  forall slot', ~ holds me slot' (release slot sh).
Proof.
  unfold release, holds. intros Honly slot' H. simpl in H.
  destruct (decide (slot' = slot)) as [->|NE].
  - assert (slot < length (mutexes sh))%nat as Hlt.
    { eapply lookup_lt_Some. by apply Honly. }
    rewrite list_lookup_insert_eq in H by done. done.
  - rewrite list_lookup_insert_ne in H by done. by apply Honly in H.
Qed.

Lemma others_none sh sh' :
  others me sh sh' ->
  (forall slot, ~ holds me slot sh) -> forall slot, ~ holds me slot sh'.
Proof. intros Ho Hfree slot H. apply (Hfree slot). by apply Ho. Qed.

Lemma others_only slot sh sh' :
  others me sh sh' ->
  (forall slot', holds me slot' sh <-> slot' = slot) ->
  forall slot', holds me slot' sh' <-> slot' = slot.
Proof. intros Ho Honly slot'. rewrite <- (Ho slot'). apply Honly. Qed.

Lemma gs_history_locks cur cIdx sIdx h :
  history me (gs_step circuit SANITY_CHECK NMUTEXES me cur cIdx sIdx)
    GS_entry h ->
  began_free me h ->
  match h with
  | [] => True
  | (pc, sh) :: _ => gs_locks NMUTEXES me cIdx pc sh
  end.
Proof.
  induction 1 as [sh|pc sh pc' sh' h Hh IH Hstep|pc sh sh' h Hh IH Hothers];
    intros Hfree.
  - intros slot. by apply (Hfree (GS_entry, sh)).
  - specialize (IH Hfree).
    destruct pc; simpl in Hstep; repeat case_match; simplify_eq;
      unfold gs_locks in *; try done.
    + by eapply acquire_only.
    + by apply release_none.
    + by eapply acquire_only.
    + by apply release_none.
  - specialize (IH Hfree).
    destruct pc; unfold gs_locks in *; try done;
      first [by eapply others_none | by eapply others_only].
Qed.

Lemma join_history_locks h :
  history me (join_step circuit NMUTEXES me) (J_loop 0) h ->
  began_free me h ->
  match h with
  | [] => True
  | (pc, sh) :: _ => join_locks NMUTEXES me pc sh
  end.
Proof.
  induction 1 as [sh|pc sh pc' sh' h Hh IH Hstep|pc sh sh' h Hh IH Hothers];
    intros Hfree.
  - intros slot. by apply (Hfree (J_loop 0, sh)).
  - specialize (IH Hfree).
    destruct pc; simpl in Hstep; repeat case_match; simplify_eq;
      unfold join_locks in *; try done.
    + by eapply acquire_only.
    + by apply release_none.
    + by eapply acquire_only.
    + by apply release_none.
  - specialize (IH Hfree).
    destruct pc; unfold join_locks in *; try done;
      first [by eapply others_none | by eapply others_only].
Qed.

End Locks.

(** X15.  The mutexes of [getSignal], at every moment of every run that
    began without one, whatever the other threads do: while it tests the
    counter and until it has unlocked, it holds the mutex of slot
    [cIdx mod NMUTEXES] and no other; everywhere else, in particular while
    it waits and when it returns, it holds none. *)
Theorem getSignal_lock_discipline circuit SANITY_CHECK NMUTEXES me
    cur cIdx sIdx pc sh h :
  history me (gs_step circuit SANITY_CHECK NMUTEXES me cur cIdx sIdx)
    GS_entry ((pc, sh) :: h) ->
  began_free me ((pc, sh) :: h) ->
  match pc with
  | GS_test | GS_unlock =>
      forall slot, holds me slot sh <-> slot = (cIdx mod NMUTEXES)%nat
  | GS_fail _ => True
  | _ => forall slot, ~ holds me slot sh
  end.
Proof.
  intros Hh Hfree.
  exact (gs_history_locks circuit SANITY_CHECK NMUTEXES me cur cIdx sIdx
           _ Hh Hfree).
Qed.

(** X16.  The mutexes of [join], at every moment of every run that began
    without one: while it tests the counter of component [i] and until it
    has unlocked, it holds the mutex of slot [i mod NMUTEXES] and no
    other; everywhere else, in particular while it waits, between two
    components and when it returns, it holds none. *)
Theorem join_lock_discipline circuit NMUTEXES me pc sh h :
  history me (join_step circuit NMUTEXES me) (J_loop 0) ((pc, sh) :: h) ->
  began_free me ((pc, sh) :: h) ->
  match pc with
  | J_test i | J_unlock i =>
      forall slot, holds me slot sh <-> slot = (i mod NMUTEXES)%nat
  | J_fail _ => True
  | _ => forall slot, ~ holds me slot sh
  end.
Proof.
  intros Hh Hfree.
  exact (join_history_locks circuit NMUTEXES me _ Hh Hfree).
Qed.

Lemma getSignal_lock_discipline_witness :
  holds 7 1 (locked 1 collision_produced) <-> 1%nat = (1 mod 2)%nat.
Proof.
  assert (history 7 (gs_step collision_circuit false 2 7 0 1 2) GS_entry
            ((GS_test, locked 1 collision_produced)
             :: drop 5 reader_history)) as Hhistory.
  { unfold reader_history, drop.
    repeat first
      [ apply history_start
      | eapply history_own; [|vm_compute; reflexivity]
      | eapply history_others; [|intros slot; split; intros H; exact H] ]. }
  assert (began_free 7 ((GS_test, locked 1 collision_produced)
                        :: drop 5 reader_history)) as Hfree.
  { intros cfg Hlast slot Hholds.
    injection Hlast as <-. unfold holds in Hholds. simpl in Hholds.
    destruct slot as [|[|slot]]; discriminate. }
  exact (getSignal_lock_discipline collision_circuit false 2 7 0 1 2
           GS_test (locked 1 collision_produced) (drop 5 reader_history)
           Hhistory Hfree 1%nat).
Defined.

Lemma join_lock_discipline_witness :
  holds 7 1 (locked 1 collision_done) <-> 1%nat = (1 mod 2)%nat.
Proof.
  assert (history 7 (join_step collision_circuit 2 7) (J_loop 0)
            ((J_test 1, locked 1 collision_done) :: drop 4 joiner_history))
    as Hhistory.
  { unfold joiner_history, drop.
    repeat first
      [ apply history_start
      | eapply history_own; [|vm_compute; reflexivity]
      | eapply history_others; [|intros slot; split; intros H; exact H] ]. }
  assert (began_free 7 ((J_test 1, locked 1 collision_done)
                        :: drop 4 joiner_history)) as Hfree.
  { intros cfg Hlast slot Hholds.
    injection Hlast as <-. unfold holds in Hholds. simpl in Hholds.
    destruct slot as [|[|slot]]; discriminate. }
  exact (join_lock_discipline collision_circuit 2 7
           (J_test 1) (locked 1 collision_done) (drop 4 joiner_history)
           Hhistory Hfree 1%nat).
Defined.

(** ** The waiting loops and the operations agree *)

(** X17.  Left alone with the mutex of its slot free, the step machine of
    [getSignal] does what the operation does in one thread of control: it
    returns the same value and leaves the memory as it was, or fails with
    the same error, or ends up waiting with the mutex released when the
    operation waits. *)
Theorem getSignal_machine_agrees circuit SANITY_CHECK NMUTEXES me
    cur cIdx sIdx sh :
  mutexes sh !! (cIdx mod NMUTEXES)%nat = Some None ->
  match getSignal circuit SANITY_CHECK cur cIdx sIdx (calc sh) with
  | (Ret v, _) =>
      exists n, steps (gs_step circuit SANITY_CHECK NMUTEXES me cur cIdx sIdx)
                  n (GS_entry, sh) = (GS_return v, sh)
  | (Blocked, _) =>
      exists n, steps (gs_step circuit SANITY_CHECK NMUTEXES me cur cIdx sIdx)
                  n (GS_entry, sh) = (GS_wait, sh)
  | (Throw e, _) =>
      exists n sh',
        steps (gs_step circuit SANITY_CHECK NMUTEXES me cur cIdx sIdx)
          n (GS_entry, sh) = (GS_fail e, sh') /\ calc sh' = calc sh
  | (OutOfFuel, _) => False
  end.
Proof. apply getSignal_quiet. Qed.

Lemma getSignal_machine_agrees_witness :
  exists n, steps (gs_step collision_circuit false 2 7 0 1 2)
              n (GS_entry, unlocked collision_produced)
            = (GS_return 10%Z, unlocked collision_produced).
Proof.
  exact (getSignal_machine_agrees collision_circuit false 2 7 0 1 2
           (unlocked collision_produced) eq_refl).
Defined.

(** X18.  Left alone with all mutexes free, the step machine of [join]
    does what the operation does in one thread of control: it returns with
    the memory as it was when the operation returns, ends up waiting for
    some component with the mutex released when the operation waits, and
    fails with the same error when the operation fails. *)
Theorem join_machine_agrees circuit NMUTEXES me sh :
  (forall slot, (slot < NMUTEXES)%nat -> mutexes sh !! slot = Some None) ->
  (0 < NMUTEXES)%nat ->
  match join circuit (calc sh) with
  | (Ret _, _) =>
      exists n, steps (join_step circuit NMUTEXES me) n (J_loop 0, sh)
                = (J_return, sh)
  | (Blocked, _) =>
      exists n j, steps (join_step circuit NMUTEXES me) n (J_loop 0, sh)
                  = (J_wait j, sh)
  | (Throw e, _) =>
      exists n sh',
        steps (join_step circuit NMUTEXES me) n (J_loop 0, sh)
        = (J_fail e, sh') /\ calc sh' = calc sh
  | (OutOfFuel, _) => False
  end.
Proof. apply join_quiet. Qed.

Lemma join_machine_agrees_witness :
  exists n, steps (join_step collision_circuit 2 7) n
              (J_loop 0, unlocked collision_done)
            = (J_return, unlocked collision_done).
Proof.
  refine (join_machine_agrees collision_circuit 2 7
            (unlocked collision_done) _ _).
  - intros slot Hslot. destruct slot as [|[|slot]]; [reflexivity..|lia].
  - lia.
Defined.

(** ** How runs stop *)

Section Stops.

Variable circuit : Circom_Circuit.
Variable SANITY_CHECK : bool.
Variable P : stop -> Prop.

Lemma stops_bind {A B} (m : M A) (f : A -> M B) :
  stops_in P m -> (forall a, stops_in P (f a)) -> stops_in P (bind m f).
Proof.
  intros Hm Hf st s. unfold bind. specialize (Hm st).
  destruct (m st) as [[a| | |] st']; simpl in *; auto. apply Hf.
Qed.

Lemma stops_ret {A} (a : A) : stops_in P (ret a).
Proof. by intros st s. Qed.

Lemma stops_for_range body n : forall lo,
  (forall i, stops_in P (body i)) -> stops_in P (for_range lo n body).
Proof.
  induction n as [|n IH]; intros lo Hbody; simpl.
  - apply stops_ret.
  - apply stops_bind; auto.
Qed.

Lemma exec_stops (good : Call -> Prop) :
  P Cut ->
  (forall call,
     (forall comp, comp ∈ components circuit ->
                   stops_in P (call (fn comp))) ->
     forall c, good c -> stops_in P (perform circuit SANITY_CHECK call c)) ->
  (forall comp, comp ∈ components circuit -> AllCalls good (fn comp)) ->
  forall fuel p, AllCalls good p ->
                 stops_in P (exec circuit SANITY_CHECK fuel p).
Proof.
  intros Hcut Hperform Hfns. induction fuel as [|fuel IH]; intros p Hp; simpl.
  - intros st s [= <-]. exact Hcut.
  - destruct p as [|c k]; [apply stops_ret|].
    destruct Hp as [Hc Hk].
    apply stops_bind; [|by auto].
    apply Hperform; auto.
Qed.

End Stops.

(** The errors of the accessors are never those of the sanity checks. *)
Lemma lookup_error_kinds circuit cIdx key e :
  error_of (getSignalOffset circuit cIdx key) = Some e \/
  error_of (getSignalSizes circuit cIdx key) = Some e \/
  error_of (getSubComponentOffset circuit cIdx key) = Some e \/
  error_of (getSubComponentSizes circuit cIdx key) = Some e ->
  (exists a i, e = OutOfBounds a i) \/ e = HashNotFound key \/
  e = InvalidType.
Proof.
  rewrite getSignalOffset_found, getSignalSizes_found,
    getSubComponentOffset_found, getSubComponentSizes_found.
  pose proof (found_entry_result circuit cIdx key) as Hres.
  destruct (found_entry circuit cIdx key) as [ent|e']; simpl.
  - intros Herr. right. right.
    destruct (type ent); simpl in Herr;
      destruct Herr as [H|[H|[H|H]]]; by simplify_eq.
  - intros Herr.
    assert (e' = e) as -> by (by destruct Herr as [H|[H|[H|H]]]; simplify_eq).
    destruct Hres as [[-> _]|(comp & _ & Hcases)]; [by eauto|].
    destruct Hcases as [(-> & _)|[(-> & _)|(j & slot & _ & _ & -> & _)]];
      eauto.
Qed.

Section StopsOfOperations.

Variable circuit : Circom_Circuit.
Variable SANITY_CHECK : bool.
Variable P : stop -> Prop.
Variable call : Prog -> M unit.

Hypothesis P_bounds : forall a i, P (Thrown (OutOfBounds a i)).
Hypothesis P_not_found : forall key, P (Thrown (HashNotFound key)).
Hypothesis P_type : P (Thrown InvalidType).
Hypothesis P_sanity :
  SANITY_CHECK = true ->
  forall e, sanity_error e = true -> P (Thrown e).
Hypothesis call_stops :
  forall comp, comp ∈ components circuit -> stops_in P (call (fn comp)).

Ltac stops_brute :=
  intros st s; unfold_ops; split_cases; simpl; try done;
  try (intros [= <-]; first [apply P_bounds | by apply P_sanity | assumption]);
  try (eapply call_stops; by eapply list_elem_of_lookup_2).

Lemma lookup_stops {A} (r : result A) key :
  (forall e, error_of r = Some e ->
     (exists a i, e = OutOfBounds a i) \/ e = HashNotFound key \/
     e = InvalidType) ->
  stops_in P (of_result r).
Proof.
  intros Hkinds st s. destruct r as [a|e]; simpl; [done|].
  intros [= <-].
  destruct (Hkinds e eq_refl) as [(a & i & ->)|[->| ->]]; auto.
Qed.

Lemma triggerComponent_stops_in c :
  stops_in P (triggerComponent circuit call c).
Proof. stops_brute. Qed.

Lemma setSignal_stops cur c sIdx v :
  stops_in P (setSignal circuit SANITY_CHECK call cur c sIdx v).
Proof. destruct SANITY_CHECK; stops_brute. Qed.

Lemma finished_stops c : stops_in P (finished c).
Proof. stops_brute. Qed.

Lemma checkConstraint_stops cur v1 v2 :
  stops_in P (checkConstraint SANITY_CHECK cur v1 v2).
Proof. destruct SANITY_CHECK; stops_brute. Qed.

Lemma reset_stops : stops_in P (reset circuit SANITY_CHECK call).
Proof.
  unfold reset. apply stops_bind.
  - destruct SANITY_CHECK; [|apply stops_ret].
    apply stops_for_range. intros i. stops_brute.
  - intros _. apply stops_for_range. intros i. stops_brute.
Qed.

Lemma getSignal_stops cur c sIdx :
  P Waits -> stops_in P (getSignal circuit SANITY_CHECK cur c sIdx).
Proof. intros Hwait. destruct SANITY_CHECK; stops_brute. Qed.

Lemma join_stops : P Waits -> stops_in P (join circuit).
Proof.
  intros Hwait. unfold join. apply stops_for_range. intros i. stops_brute.
Qed.

Lemma perform_stops c :
  never_waits c \/ P Waits ->
  stops_in P (perform circuit SANITY_CHECK call c).
Proof.
  intros Hc. destruct c; simpl in *;
    (apply stops_bind; [|intros; apply stops_ret]).
  - apply (lookup_stops _ key). intros e He.
    apply (lookup_error_kinds circuit cIdx key). auto.
  - apply (lookup_stops _ key). intros e He.
    apply (lookup_error_kinds circuit cIdx key). auto.
  - apply (lookup_stops _ key). intros e He.
    apply (lookup_error_kinds circuit cIdx key). auto.
  - apply (lookup_stops _ key). intros e He.
    apply (lookup_error_kinds circuit cIdx key). auto.
  - apply getSignal_stops. by destruct Hc.
  - apply setSignal_stops.
  - apply checkConstraint_stops.
  - apply finished_stops.
  - apply triggerComponent_stops_in.
  - apply reset_stops.
  - apply join_stops. by destruct Hc.
Qed.

End StopsOfOperations.

(** X19.  A build without sanity checks never stops on one of their
    errors: whatever the generated code does, a run that fails does so on a
    lookup ([HashNotFound], [InvalidType]) or on an access outside an
    array, never on [SignalAssignedTwice], [NotAssignedSignal] or
    [ConstraintDoesntMatch]. *)
Theorem release_build_raises_no_sanity_error circuit fuel p st e :
  fst (exec circuit false fuel p st) = Throw e ->
  sanity_error e = false.
Proof.
  intros Hthrow.
  assert (stops_in no_sanity_stop (exec circuit false fuel p)) as Hstops.
  { apply (exec_stops circuit false no_sanity_stop any_call).
    - exact I.
    - intros call Hcall c _. apply perform_stops; try done. by right.
    - intros comp _. clear. induction (fn comp); by simpl.
    - clear. induction p; by simpl. }
  apply (Hstops st (Thrown e)). by rewrite Hthrow.
Qed.

Lemma release_build_raises_no_sanity_error_witness :
  fst (exec identity_circuit false 2
         (Do (CGetSignalOffset 7 1) (fun _ => Return)) identity_ready)
  = Throw (OutOfBounds A_components 7) /\
  sanity_error (OutOfBounds A_components 7) = false.
Proof.
  split; [reflexivity|].
  apply (release_build_raises_no_sanity_error identity_circuit 2
           (Do (CGetSignalOffset 7 1) (fun _ => Return)) identity_ready).
  reflexivity.
Defined.

(** X20.  Only [getSignal] and [join] wait: when neither the program nor
    any component function of the circuit calls one of them, no run ends
    waiting, in either build and from any state. *)
Theorem only_getSignal_and_join_wait circuit SANITY_CHECK fuel p st :
  (forall comp, comp ∈ components circuit -> AllCalls never_waits (fn comp)) ->
  AllCalls never_waits p ->
  fst (exec circuit SANITY_CHECK fuel p st) <> Blocked.
Proof.
  intros Hfns Hp Hblocked.
  assert (stops_in no_wait (exec circuit SANITY_CHECK fuel p)) as Hstops.
  { apply (exec_stops circuit SANITY_CHECK no_wait never_waits); try done.
    intros call Hcall c Hc. apply perform_stops; try done. by left. }
  apply (Hstops st Waits); [|done]. by rewrite Hblocked.
Qed.

Lemma only_getSignal_and_join_wait_witness :
  (forall comp, comp ∈ components collision_circuit ->
                AllCalls never_waits (fn comp)) /\
  AllCalls never_waits (Do (CSetSignal 0 0 1 3%Z) (fun _ => Return)) /\
  fst (exec collision_circuit true 5
         (Do (CSetSignal 0 0 1 3%Z) (fun _ => Return)) collision_produced)
  <> Blocked.
Proof.
  assert (forall comp, comp ∈ components collision_circuit ->
                       AllCalls never_waits (fn comp)) as Hfns.
  { intros comp Hin. unfold collision_circuit in Hin. simpl in Hin.
    apply elem_of_cons in Hin as [->|Hin]; [by simpl|].
    apply list_elem_of_singleton in Hin as ->. by simpl. }
  assert (AllCalls never_waits (Do (CSetSignal 0 0 1 3%Z) (fun _ => Return)))
    as Hp by (by simpl).
  split; [exact Hfns|]. split; [exact Hp|].
  exact (only_getSignal_and_join_wait collision_circuit true 5 _
           collision_produced Hfns Hp).
Defined.
